(** * ZynqMP PM client: registry, IPI mailbox and power-transition actions

    A shallow embedding of [plat/xilinx/zynqmp/pm_service/pm_client.c] and
    the properties of it stated by the specification.

    The C file manipulates 32-bit words ([uint32_t]), a static table of
    processor descriptors, memory-mapped registers, a bakery lock and the GIC
    CPU interface.  Words are integers of [Z] with the wrap-around written
    out; code that touches the hardware is written in a small free monad
    [prog] over the primitive hardware actions, which is given a sequential
    semantics ([run], one core) and an interleaving semantics ([cstep],
    several cores sharing the machine). *)

From Stdlib Require Import ZArith List Bool Lia Arith Btauto.
Import ListNotations.

Local Open Scope Z_scope.

(** ** 32-bit words *)

Definition wrap32 (x : Z) : Z := x mod 2 ^ 32.

(** [a + b] computed in [uint32_t]. *)
Definition add32 (a b : Z) : Z := wrap32 (a + b).

(** [~x] computed in [uint32_t]. *)
Definition not32 (x : Z) : Z := wrap32 (Z.lnot x).

(** ** Constants of the headers

    [pm_client.h] and the headers it pulls in are not part of the sources at
    hand; every constant [pm_client.c] names but does not define is a field
    of [Platform], so that the functions below are the code for any values of
    them.  [zynqmp] further down fills them in for the concrete runs. *)

Class Platform : Type := {
  (* enum pm_node_id *)
  NODE_APU : Z;
  NODE_APU_0 : Z;
  NODE_APU_1 : Z;
  NODE_APU_2 : Z;
  NODE_APU_3 : Z;
  (* APU power control *)
  APU_PWRCTL : Z;
  APU_0_PWRCTL_CPUPWRDWNREQ_MASK : Z;
  APU_1_PWRCTL_CPUPWRDWNREQ_MASK : Z;
  APU_2_PWRCTL_CPUPWRDWNREQ_MASK : Z;
  APU_3_PWRCTL_CPUPWRDWNREQ_MASK : Z;
  (* IPI channel *)
  IPI_APU_MASK : Z;
  IPI_BASEADDR : Z;
  IPI_BUFFER_APU_BASE : Z;
  IPI_TRIG_OFFSET : Z;
  IPI_OBS_OFFSET : Z;
  IPI_PMU_PM_INT_MASK : Z;
  IPI_BUFFER_TARGET_PMU_OFFSET : Z;
  IPI_BUFFER_REQ_OFFSET : Z;
  IPI_BUFFER_RESP_OFFSET : Z;
  (* payload *)
  PAYLOAD_ARG_CNT : nat;
  PAYLOAD_ARG_SIZE : Z;
  (* enum pm_ret_status *)
  PM_RET_SUCCESS : Z;
  (* the value of UNDEFINED_CPUID as a uint32_t *)
  UNDEFINED_CPUID : Z
}.

(** ** Data model *)

(** [struct pm_ipi]. *)
Record pm_ipi : Type := mk_pm_ipi {
  mask : Z;
  base : Z;
  buffer_base : Z
}.

(** [struct pm_proc]; the [ipi] pointer refers to constant data and is
    modelled by the record it points to. *)
Record pm_proc : Type := mk_pm_proc {
  node_id : Z;
  pwrdn_mask : Z;
  ipi : pm_ipi
}.

(** A physical core, by its index. *)
Definition core : Type := nat.

Section Registry.

Context {plat : Platform}.

Definition apu_ipi : pm_ipi :=
  {| mask := IPI_APU_MASK;
     base := IPI_BASEADDR;
     buffer_base := IPI_BUFFER_APU_BASE |}.

Definition pm_apu_0_proc : pm_proc :=
  {| node_id := NODE_APU_0;
     pwrdn_mask := APU_0_PWRCTL_CPUPWRDWNREQ_MASK;
     ipi := apu_ipi |}.

Definition pm_apu_1_proc : pm_proc :=
  {| node_id := NODE_APU_1;
     pwrdn_mask := APU_1_PWRCTL_CPUPWRDWNREQ_MASK;
     ipi := apu_ipi |}.

Definition pm_apu_2_proc : pm_proc :=
  {| node_id := NODE_APU_2;
     pwrdn_mask := APU_2_PWRCTL_CPUPWRDWNREQ_MASK;
     ipi := apu_ipi |}.

Definition pm_apu_3_proc : pm_proc :=
  {| node_id := NODE_APU_3;
     pwrdn_mask := APU_3_PWRCTL_CPUPWRDWNREQ_MASK;
     ipi := apu_ipi |}.

(** Order in the array matches the cpu ids. *)
Definition pm_procs_all : list pm_proc :=
  [pm_apu_0_proc; pm_apu_1_proc; pm_apu_2_proc; pm_apu_3_proc].

(** [PM_ARRAY_SIZE(x)]: the number of elements of the array. *)
Definition PM_ARRAY_SIZE {A : Type} (x : list A) : Z := Z.of_nat (length x).

(** [pm_get_proc]: a pointer result is [Some] descriptor, [NULL] is [None].
    [cpuid] is a [uint32_t]. *)
Definition pm_get_proc (cpuid : Z) : option pm_proc :=
  if cpuid <? PM_ARRAY_SIZE pm_procs_all
  then nth_error pm_procs_all (Z.to_nat cpuid)
  else None.

(** The scan of [pm_get_proc_by_node] over the entries from some index on. *)
Fixpoint proc_by_node_from (nid : Z) (procs : list pm_proc) : option pm_proc :=
  match procs with
  | [] => None
  | p :: rest =>
      if nid =? node_id p then Some p else proc_by_node_from nid rest
  end.

Definition pm_get_proc_by_node (nid : Z) : option pm_proc :=
  proc_by_node_from nid pm_procs_all.

(** The scan of [pm_get_cpuid]: [i] is the loop counter, [procs] the entries
    from index [i] on. *)
Fixpoint cpuid_from (nid : Z) (i : Z) (procs : list pm_proc) : Z :=
  match procs with
  | [] => UNDEFINED_CPUID
  | p :: rest =>
      if node_id p =? nid then i else cpuid_from nid (i + 1) rest
  end.

Definition pm_get_cpuid (nid : Z) : Z := cpuid_from nid 0 pm_procs_all.

Definition subsystem_node : Z := NODE_APU.

(** [primary_proc] is a global pointer that this file initialises and never
    assigns again. *)
Definition primary_proc : pm_proc := pm_apu_0_proc.

End Registry.

(** ** The machine *)

(** What a core does to the hardware, as it is logged. *)
Inductive event : Type :=
| EvAcquire                      (* bakery_lock_get returned *)
| EvRelease                      (* bakery_lock_release *)
| EvRead (addr val : Z)          (* pm_read *)
| EvWrite (addr val : Z)         (* pm_write *)
| EvStore (ptr val : Z)          (* store through a pointer of the caller *)
| EvGicOff                       (* arm_gic_cpuif_deactivate *)
| EvGicOn.                       (* arm_gic_cpuif_setup *)

(** Modelled from the spec: the register access primitives, the interrupt
    controller entry points and the lock are collaborators of which only the
    interface is given ("read(address) -> word, write(address, word) over a
    memory-mapped address space; assumed uncached, ordered, side-effecting",
    "enable/disable interrupt delivery to the current core",
    "acquire(lock), release(lock)").

    [regs] is the memory-mapped address space.  The PMU runs beside the
    cores and stores to it as well (it clears the pending bit and writes the
    response): [pmu n a = Some v] says that the PMU has stored [v] at [a]
    by the time of the [n]-th bus access of the cores, and [clock] counts
    these accesses.  [ram] is the ordinary memory the callers' pointers refer
    to, [lock] the holder of [pm_secure_lock], [gic c] whether the CPU
    interface of core [c] is active, and [trace] the log of events, oldest
    first. *)
Record machine : Type := mk_machine {
  regs : Z -> Z;
  clock : nat;
  pmu : nat -> Z -> option Z;
  ram : Z -> Z;
  lock : option core;
  gic : core -> bool;
  trace : list (core * event)
}.

Definition upd {A : Type} (f : Z -> A) (a : Z) (v : A) : Z -> A :=
  fun x => if x =? a then v else f x.

Definition upd_core (f : core -> bool) (c : core) (v : bool) : core -> bool :=
  fun x => if Nat.eqb x c then v else f x.

(** The address space once the PMU's stores due at this access are in. *)
Definition pmu_apply (m : machine) : Z -> Z :=
  fun a => match pmu m (clock m) a with
           | Some v => v
           | None => regs m a
           end.

Definition log (c : core) (e : event) (m : machine) : list (core * event) :=
  trace m ++ [(c, e)].

(** Modelled from the spec: [pm_read], the register read primitive of the
    absent [pm_common.h] ("read(address) -> word").  A 32-bit load by core
    [c]: the PMU's stores due by now are in, the word at [a] is returned and
    the access is logged. *)
Definition bus_read (c : core) (a : Z) (m : machine) : Z * machine :=
  let r := pmu_apply m in
  let v := wrap32 (r a) in
  (v, {| regs := r; clock := S (clock m); pmu := pmu m; ram := ram m;
         lock := lock m; gic := gic m; trace := log c (EvRead a v) m |}).

(** Modelled from the spec: [pm_write], the register write primitive
    ("write(address, word)").  A 32-bit store by core [c]. *)
Definition bus_write (c : core) (a v : Z) (m : machine) : machine :=
  {| regs := upd (pmu_apply m) a (wrap32 v); clock := S (clock m);
     pmu := pmu m; ram := ram m; lock := lock m; gic := gic m;
     trace := log c (EvWrite a (wrap32 v)) m |}.

(** The primitive actions that return nothing: the lock, a register
    write, a store through a pointer of the caller, the GIC CPU interface. *)
Inductive effect : Type :=
| LockGet
| LockRelease
| MmioWrite (addr val : Z)
| StoreOut (ptr val : Z)
| GicDeactivate
| GicSetup.

(** Modelled from the spec: [bakery_lock_get] and [bakery_lock_release]
    ("acquire(lock), release(lock)": the caller holds the lock from the
    return of the one to the call of the other), [arm_gic_cpuif_deactivate]
    and [arm_gic_cpuif_setup] ("enable/disable interrupt delivery to the
    current core"); with them the store [*value = v] to ordinary memory. *)
Definition apply_effect (c : core) (e : effect) (m : machine) : machine :=
  match e with
  | LockGet =>
      {| regs := regs m; clock := clock m; pmu := pmu m; ram := ram m;
         lock := Some c; gic := gic m; trace := log c EvAcquire m |}
  | LockRelease =>
      {| regs := regs m; clock := clock m; pmu := pmu m; ram := ram m;
         lock := None; gic := gic m; trace := log c EvRelease m |}
  | MmioWrite a v => bus_write c a v m
  | StoreOut p v =>
      {| regs := regs m; clock := clock m; pmu := pmu m;
         ram := upd (ram m) p (wrap32 v);
         lock := lock m; gic := gic m; trace := log c (EvStore p (wrap32 v)) m |}
  | GicDeactivate =>
      {| regs := regs m; clock := clock m; pmu := pmu m; ram := ram m;
         lock := lock m; gic := upd_core (gic m) c false;
         trace := log c EvGicOff m |}
  | GicSetup =>
      {| regs := regs m; clock := clock m; pmu := pmu m; ram := ram m;
         lock := lock m; gic := upd_core (gic m) c true;
         trace := log c EvGicOn m |}
  end.

(** Modelled from the spec: the mutual exclusion of the lock.  Whether a
    core can take the action now: the lock is only taken when it is free.
    Used by the interleaving semantics; one core alone is taken to get the
    lock whenever it asks. *)
Definition enabled (e : effect) (m : machine) : bool :=
  match e with
  | LockGet => match lock m with None => true | Some _ => false end
  | _ => true
  end.

(** ** Programs *)

(** Code that touches the hardware: a tree of primitive actions.  [Spin]
    is a loop that has not left within the iterations it was given. *)
Inductive prog (A : Type) : Type :=
| Ret (a : A)
| Load (addr : Z) (k : Z -> prog A)
| Do (e : effect) (k : prog A)
| Spin.

Arguments Ret {A} a.
Arguments Load {A} addr k.
Arguments Do {A} e k.
Arguments Spin {A}.

Fixpoint bind {A B : Type} (p : prog A) (f : A -> prog B) : prog B :=
  match p with
  | Ret a => f a
  | Load addr k => Load addr (fun v => bind (k v) f)
  | Do e k => Do e (bind k f)
  | Spin => Spin
  end.

Notation "x <- p ;; q" := (bind p (fun x => q))
  (at level 61, p at next level, right associativity).
Notation "p ;; q" := (bind p (fun _ => q))
  (at level 61, right associativity).

Definition pm_read (addr : Z) : prog Z := Load addr (fun v => Ret v).
Definition pm_write (addr val : Z) : prog unit := Do (MmioWrite addr val) (Ret tt).
Definition bakery_lock_get : prog unit := Do LockGet (Ret tt).
Definition bakery_lock_release : prog unit := Do LockRelease (Ret tt).
Definition arm_gic_cpuif_deactivate : prog unit := Do GicDeactivate (Ret tt).
Definition arm_gic_cpuif_setup : prog unit := Do GicSetup (Ret tt).
Definition store_out (ptr val : Z) : prog unit := Do (StoreOut ptr val) (Ret tt).

(** One core running a program to its end; [None] when it spins. *)
Fixpoint run {A : Type} (c : core) (p : prog A) (m : machine) : option (A * machine) :=
  match p with
  | Ret a => Some (a, m)
  | Load addr k => let (v, m') := bus_read c addr m in run c (k v) m'
  | Do e k => run c k (apply_effect c e m)
  | Spin => None
  end.

(** ** The functions of [pm_client.c] that touch the hardware *)

Section Client.

Context {plat : Platform}.

Definition pm_client_suspend (proc : pm_proc) : prog unit :=
  (* Disable interrupts at processor level (for current cpu) *)
  arm_gic_cpuif_deactivate ;;
  (* Set powerdown request *)
  v <- pm_read APU_PWRCTL ;;
  pm_write APU_PWRCTL (Z.lor v (pwrdn_mask proc)).

Definition pm_client_abort_suspend : prog unit :=
  (* Enable interrupts at processor level (for current cpu) *)
  arm_gic_cpuif_setup ;;
  (* Clear powerdown request *)
  v <- pm_read APU_PWRCTL ;;
  pm_write APU_PWRCTL (Z.land v (not32 (pwrdn_mask primary_proc))).

Definition pm_client_wakeup (proc : pm_proc) : prog unit :=
  let cpuid := pm_get_cpuid (node_id proc) in
  if negb (UNDEFINED_CPUID =? cpuid) then
    (* clear powerdown bit for affected cpu *)
    val <- pm_read APU_PWRCTL ;;
    let val := Z.land val (not32 (pwrdn_mask proc)) in
    pm_write APU_PWRCTL val
  else Ret tt.

(** [while (status) { status = pm_read(addr) & IPI_PMU_PM_INT_MASK; }]:
    [fuel] bounds the number of turns of the loop. *)
Fixpoint poll (fuel : nat) (addr : Z) (status : Z) : prog unit :=
  if status =? 0 then Ret tt
  else
    match fuel with
    | O => Spin
    | S fuel' =>
        v <- pm_read addr ;;
        poll fuel' addr (Z.land v IPI_PMU_PM_INT_MASK)
    end.

Definition pm_ipi_wait (fuel : nat) (proc : pm_proc) : prog Z :=
  bakery_lock_get ;;
  (* Wait until previous interrupt is handled by PMU *)
  poll fuel (add32 (base (ipi proc)) IPI_OBS_OFFSET) 1 ;;
  (* Message sent successfully to PMU *)
  bakery_lock_release ;;
  Ret PM_RET_SUCCESS.

(** [for (i = 0; i < PAYLOAD_ARG_CNT; i++)] of [pm_ipi_send]: [n] turns are
    left, [i] is the loop counter. *)
Fixpoint write_payload (n : nat) (i : nat) (buffer_base offset : Z)
    (payload : list Z) : prog unit :=
  match n with
  | O => Ret tt
  | S n' =>
      pm_write (add32 buffer_base offset) (nth i payload 0) ;;
      write_payload n' (S i) buffer_base (add32 offset PAYLOAD_ARG_SIZE) payload
  end.

(** [payload] is the array of the caller, read at [0 .. PAYLOAD_ARG_CNT-1]. *)
Definition pm_ipi_send (fuel : nat) (proc : pm_proc) (payload : list Z) : prog Z :=
  let offset := 0 in
  let buffer_base :=
    add32 (add32 (buffer_base (ipi proc)) IPI_BUFFER_TARGET_PMU_OFFSET)
          IPI_BUFFER_REQ_OFFSET in
  (* Wait until previous interrupt is handled by PMU *)
  pm_ipi_wait fuel proc ;;
  (* Write payload into IPI buffer *)
  write_payload PAYLOAD_ARG_CNT 0 buffer_base offset payload ;;
  (* Generate IPI to PMU *)
  pm_write (add32 (base (ipi proc)) IPI_TRIG_OFFSET) IPI_PMU_PM_INT_MASK ;;
  Ret PM_RET_SUCCESS.

(** [value] is the pointer argument: [None] for [NULL]. *)
Definition pm_ipi_buff_read32 (fuel : nat) (proc : pm_proc) (value : option Z) : prog Z :=
  let buffer_base :=
    add32 (add32 (buffer_base (ipi proc)) IPI_BUFFER_TARGET_PMU_OFFSET)
          IPI_BUFFER_RESP_OFFSET in
  pm_ipi_wait fuel proc ;;
  match value with
  | Some ptr =>
      v <- pm_read (add32 buffer_base PAYLOAD_ARG_SIZE) ;;
      store_out ptr v
  | None => Ret tt
  end ;;
  pm_read buffer_base.

End Client.

(** ** Several cores *)

(** The cores share the machine; core [c] runs the [c]-th program. *)
Record system : Type := mk_system {
  hw : machine;
  threads : list (prog Z)
}.

Fixpoint set_nth {A : Type} (n : nat) (x : A) (l : list A) : list A :=
  match l, n with
  | [], _ => []
  | _ :: t, O => x :: t
  | h :: t, S n' => h :: set_nth n' x t
  end.

(** Core [c] takes its next action, which is atomic; [None] when it has
    finished, spins, or waits for the lock. *)
Definition cstep (c : core) (s : system) : option system :=
  match nth_error (threads s) c with
  | Some (Load addr k) =>
      let (v, m') := bus_read c addr (hw s) in
      Some {| hw := m'; threads := set_nth c (k v) (threads s) |}
  | Some (Do e k) =>
      if enabled e (hw s)
      then Some {| hw := apply_effect c e (hw s);
                   threads := set_nth c k (threads s) |}
      else None
  | _ => None
  end.

(** The cores step in the order the schedule gives. *)
Fixpoint run_schedule (sched : list core) (s : system) : option system :=
  match sched with
  | [] => Some s
  | c :: rest =>
      match cstep c s with
      | Some s' => run_schedule rest s'
      | None => None
      end
  end.

(** ** Vocabulary of the statements *)

(** What the [k]-th of a run of consecutive reads of [addr] returns, the
    first being read number 0: the register as the polling core observes
    it. *)
Fixpoint nth_poll (c : core) (addr : Z) (m : machine) (k : nat) : Z :=
  match k with
  | O => fst (bus_read c addr m)
  | S k' => nth_poll c addr (snd (bus_read c addr m)) k'
  end.

(** The machine after [k] consecutive reads of [addr]. *)
Fixpoint after_polls (c : core) (addr : Z) (m : machine) (k : nat) : machine :=
  match k with
  | O => m
  | S k' => after_polls c addr (snd (bus_read c addr m)) k'
  end.

(** The machine after the stores of a list of (address, value) pairs, in
    order. *)
Definition after_writes (c : core) (ws : list (Z * Z)) (m : machine) : machine :=
  fold_left (fun m' w => bus_write c (fst w) (snd w) m') ws m.

(** The power-control register has no other writer: the PMU never stores
    to [addr]. *)
Definition pmu_leaves (m : machine) (addr : Z) : Prop :=
  forall n, pmu m n addr = None.

(** A register as a 32-bit load would return it, the PMU being idle. *)
Definition reg32 (m : machine) (addr : Z) : Z := wrap32 (regs m addr).

Definition is_lock_event (e : core * event) : bool :=
  match snd e with
  | EvAcquire | EvRelease => true
  | _ => false
  end.

Definition is_read_of (addr : Z) (e : core * event) : bool :=
  match snd e with
  | EvRead a _ => a =? addr
  | _ => false
  end.

(** The stores to the address space in a trace, with the core that made
    them, oldest first. *)
Fixpoint writes_of (tr : list (core * event)) : list (core * Z * Z) :=
  match tr with
  | [] => []
  | (c, EvWrite a v) :: rest => (c, a, v) :: writes_of rest
  | _ :: rest => writes_of rest
  end.

(** The trace keeps requests apart: once a core has stored into the request
    region [lo .. hi) no other core stores there until the first has written
    the trigger register at [trig].  [writer] is the core whose request is in
    flight. *)
Fixpoint requests_apart (lo hi trig : Z) (writer : option core)
    (ws : list (core * Z * Z)) : bool :=
  match ws with
  | [] => true
  | (c, a, _) :: rest =>
      if (lo <=? a) && (a <? hi) then
        match writer with
        | Some c' =>
            if Nat.eqb c c' then requests_apart lo hi trig writer rest else false
        | None => requests_apart lo hi trig (Some c) rest
        end
      else if a =? trig then
        match writer with
        | Some c' =>
            if Nat.eqb c c' then requests_apart lo hi trig None rest
            else requests_apart lo hi trig writer rest
        | None => requests_apart lo hi trig None rest
        end
      else requests_apart lo hi trig writer rest
  end.

(** The registers and buffer regions of the channel of a descriptor, and
    what the specification says [send] stores. *)
Section Channel.

Context {plat : Platform}.

Definition observation_register (proc : pm_proc) : Z :=
  wrap32 (base (ipi proc) + IPI_OBS_OFFSET).

Definition trigger_register (proc : pm_proc) : Z :=
  wrap32 (base (ipi proc) + IPI_TRIG_OFFSET).

(** Word [i] of the request region. *)
Definition request_word (proc : pm_proc) (i : nat) : Z :=
  wrap32 (buffer_base (ipi proc) + IPI_BUFFER_TARGET_PMU_OFFSET
          + IPI_BUFFER_REQ_OFFSET + Z.of_nat i * PAYLOAD_ARG_SIZE).

(** Word [i] of the response region. *)
Definition response_word (proc : pm_proc) (i : nat) : Z :=
  wrap32 (buffer_base (ipi proc) + IPI_BUFFER_TARGET_PMU_OFFSET
          + IPI_BUFFER_RESP_OFFSET + Z.of_nat i * PAYLOAD_ARG_SIZE).

(** The request-pending bit as the [k]-th poll of core [c] observes it. *)
Definition pending (c : core) (proc : pm_proc) (m : machine) (k : nat) : Z :=
  Z.land (nth_poll c (observation_register proc) m k) IPI_PMU_PM_INT_MASK.

(** The machine after the lock was taken, the observation register read
    [k + 1] times and the lock released: where [pm_ipi_wait] returns when
    read number [k] is the first to show the bit clear. *)
Definition after_wait (c : core) (proc : pm_proc) (m : machine) (k : nat) : machine :=
  apply_effect c LockRelease
    (after_polls c (observation_register proc) (apply_effect c LockGet m) (S k)).

(** The stores of [send] as the specification words them: each payload
    word in turn into the request region, one word apart, then the trigger
    bit into the trigger register. *)
Definition request_writes (proc : pm_proc) (payload : list Z) : list (Z * Z) :=
  combine (map (request_word proc) (seq 0 (length payload))) payload
  ++ [(trigger_register proc, IPI_PMU_PM_INT_MASK)].

End Channel.

(** A store as it is logged. *)
Definition write_event (c : core) (w : Z * Z) : core * event :=
  (c, EvWrite (fst w) (wrap32 (snd w))).

(** ** A concrete platform

    The values of the ZynqMP headers: node ids 2..5 for the four APU cores,
    power-down masks bit0..bit3, the IPI block and its buffer.  They serve to
    run the code on concrete inputs. *)
#[local] Instance zynqmp : Platform := {|
  NODE_APU := 1;
  NODE_APU_0 := 2;
  NODE_APU_1 := 3;
  NODE_APU_2 := 4;
  NODE_APU_3 := 5;
  APU_PWRCTL := 0xFD5C0090;
  APU_0_PWRCTL_CPUPWRDWNREQ_MASK := 1;
  APU_1_PWRCTL_CPUPWRDWNREQ_MASK := 2;
  APU_2_PWRCTL_CPUPWRDWNREQ_MASK := 4;
  APU_3_PWRCTL_CPUPWRDWNREQ_MASK := 8;
  IPI_APU_MASK := 1;
  IPI_BASEADDR := 0xFF300000;
  IPI_BUFFER_APU_BASE := 0xFF990400;
  IPI_TRIG_OFFSET := 0;
  IPI_OBS_OFFSET := 4;
  IPI_PMU_PM_INT_MASK := 0x10000;
  IPI_BUFFER_TARGET_PMU_OFFSET := 0x1C0;
  IPI_BUFFER_REQ_OFFSET := 0;
  IPI_BUFFER_RESP_OFFSET := 0x20;
  PAYLOAD_ARG_CNT := 5;
  PAYLOAD_ARG_SIZE := 4;
  PM_RET_SUCCESS := 0;
  UNDEFINED_CPUID := 0xFFFFFFFF
|}.

(** A machine at rest: registers [r], the PMU idle, the lock free, the CPU
    interfaces active, nothing logged. *)
Definition quiet_machine (r : Z -> Z) : machine :=
  {| regs := r; clock := 0; pmu := fun _ _ => None; ram := fun _ => 0;
     lock := None; gic := fun _ => true; trace := [] |}.

(** A machine whose PMU clears the observation register of the APU channel
    at bus access [n], the pending bit being set before. *)
Definition busy_machine (n : nat) : machine :=
  {| regs := upd (fun _ => 0) 0xFF300004 0x10000; clock := 0;
     pmu := fun t a => if Nat.eqb t n && (a =? 0xFF300004) then Some 0 else None;
     ram := fun _ => 0; lock := None; gic := fun _ => true; trace := [] |}.

(** A machine whose PMU never clears the pending bit of the APU channel. *)
Definition stuck_machine : machine :=
  quiet_machine (upd (fun _ => 0) 0xFF300004 0x10000).

(** A descriptor of a node that is no APU core. *)
Definition stray_proc : pm_proc :=
  {| node_id := 7; pwrdn_mask := 1; ipi := apu_ipi |}.

(** Cores 0 and 1 each about to send a request on the shared channel. *)
Definition two_senders : system :=
  {| hw := quiet_machine (fun _ => 0);
     threads := [ pm_ipi_send 1 pm_apu_0_proc [0xA0; 0xA1; 0xA2; 0xA3; 0xA4];
                  pm_ipi_send 1 pm_apu_1_proc [0xB0; 0xB1; 0xB2; 0xB3; 0xB4] ] |}.

(** Both cores pass the wait one after the other, then store in turns. *)
Definition alternating_schedule : list core :=
  [0; 0; 0; 1; 1; 1; 0; 1; 0; 1; 0; 1; 0; 1; 0; 1; 0; 1]%nat.

(** ** Vocabulary of the further statements *)

(** A core that makes a call which returns nothing and is done. *)
Definition as_thread (p : prog unit) : prog Z := p ;; Ret 0.

(** Cores 0 and 1 each about to request a power-down, of [p0] and of [p1],
    the power-control register and all others reading as [r] gives them. *)
Definition two_suspenders {plat : Platform} (r : Z -> Z) (p0 p1 : pm_proc) : system :=
  {| hw := quiet_machine r;
     threads := [ as_thread (pm_client_suspend p0);
                  as_thread (pm_client_suspend p1) ] |}.

(** Both cores switch their CPU interface off, both read the register, both
    write it. *)
Definition racing_schedule : list core := [0; 1; 0; 1; 0; 1]%nat.

(** How a program uses the lock: started by a core that holds it
    ([before = true]) or does not, it takes the lock only when it does not
    hold it, releases it only when it holds it, and wherever it returns the
    core holds the lock as [after] says. *)
Inductive brackets {A : Type} : bool -> prog A -> bool -> Prop :=
| br_ret (h : bool) (a : A) : brackets h (Ret a) h
| br_spin (h h' : bool) : brackets h Spin h'
| br_load (h h' : bool) (addr : Z) (k : Z -> prog A) :
    (forall v, brackets h (k v) h') -> brackets h (Load addr k) h'
| br_get (h' : bool) (k : prog A) :
    brackets true k h' -> brackets false (Do LockGet k) h'
| br_release (h' : bool) (k : prog A) :
    brackets false k h' -> brackets true (Do LockRelease k) h'
| br_write (h h' : bool) (addr val : Z) (k : prog A) :
    brackets h k h' -> brackets h (Do (MmioWrite addr val) k) h'
| br_store (h h' : bool) (ptr val : Z) (k : prog A) :
    brackets h k h' -> brackets h (Do (StoreOut ptr val) k) h'
| br_gic_off (h h' : bool) (k : prog A) :
    brackets h k h' -> brackets h (Do GicDeactivate k) h'
| br_gic_on (h h' : bool) (k : prog A) :
    brackets h k h' -> brackets h (Do GicSetup k) h'.

(** The calls of [pm_client.c] a core can be in. *)
Inductive client_call {plat : Platform} : prog Z -> Prop :=
| call_wait (fuel : nat) (proc : pm_proc) :
    client_call (pm_ipi_wait fuel proc)
| call_send (fuel : nat) (proc : pm_proc) (payload : list Z) :
    client_call (pm_ipi_send fuel proc payload)
| call_read32 (fuel : nat) (proc : pm_proc) (value : option Z) :
    client_call (pm_ipi_buff_read32 fuel proc value)
| call_suspend (proc : pm_proc) :
    client_call (as_thread (pm_client_suspend proc))
| call_abort_suspend :
    client_call (as_thread pm_client_abort_suspend)
| call_wakeup (proc : pm_proc) :
    client_call (as_thread (pm_client_wakeup proc)).

(** The holder of the lock after the events of a trace, [h] holding it
    before; [None] when the trace takes a lock that is held or releases one
    that the core does not hold. *)
Fixpoint holder_after (h : option core) (tr : list (core * event))
    : option (option core) :=
  match tr with
  | [] => Some h
  | (c, EvAcquire) :: rest =>
      match h with
      | None => holder_after (Some c) rest
      | Some _ => None
      end
  | (c, EvRelease) :: rest =>
      match h with
      | Some c' => if Nat.eqb c c' then holder_after None rest else None
      | None => None
      end
  | _ :: rest => holder_after h rest
  end.

(** The PMU has made its last store to [addr]: from this bus access on it
    leaves the address alone. *)
Definition pmu_done (m : machine) (addr : Z) : Prop :=
  forall n, (clock m <= n)%nat -> pmu m n addr = None.

(** A machine whose PMU, a request being pending on the APU channel, writes
    the response (status 0, value 42) at bus access 2 and clears the
    pending bit at bus access 3. *)
Definition answering_machine : machine :=
  {| regs := upd (fun _ => 0) 0xFF300004 0x10000; clock := 0;
     pmu := fun t a =>
              if Nat.eqb t 2 && (a =? 0xFF9905E0) then Some 0
              else if Nat.eqb t 2 && (a =? 0xFF9905E4) then Some 42
              else if Nat.eqb t 3 && (a =? 0xFF300004) then Some 0
              else None;
     ram := fun _ => 0; lock := None; gic := fun _ => true; trace := [] |}.

(** Whether core [c] holds the lock. *)
Definition holds (m : machine) (c : core) : bool :=
  match lock m with
  | Some c' => Nat.eqb c c'
  | None => false
  end.

(** Every core is in a program that brackets the lock, the holder inside
    its bracket, and ends its call without the lock. *)
Definition disciplined (s : system) : Prop :=
  forall c p, nth_error (threads s) c = Some p -> brackets (holds (hw s) c) p false.

(** Cores 0 and 1 each about to send a request on the shared channel of a
    machine whose PMU never clears the pending bit. *)
Definition stuck_senders : system :=
  {| hw := stuck_machine;
     threads := [ pm_ipi_send 3 pm_apu_0_proc [0xA0; 0xA1; 0xA2; 0xA3; 0xA4];
                  pm_ipi_send 3 pm_apu_1_proc [0xB0; 0xB1; 0xB2; 0xB3; 0xB4] ] |}.

(** * Properties *)

(** ** Running programs *)

Lemma run_bind {A B : Type} (c : core) (p : prog A) (f : A -> prog B) (m : machine) :
  run c (bind p f) m =
  match run c p m with
  | Some (a, m') => run c (f a) m'
  | None => None
  end.
Proof.
  revert m. induction p as [a | addr k IH | e k IH | ]; intros m; simpl.
  - reflexivity.
  - destruct (bus_read c addr m) as [v m']. apply IH.
  - apply IH.
  - reflexivity.
Qed.

Lemma run_pm_read (c : core) (addr : Z) (m : machine) :
  run c (pm_read addr) m = Some (bus_read c addr m).
Proof. reflexivity. Qed.

Lemma run_pm_write (c : core) (addr val : Z) (m : machine) :
  run c (pm_write addr val) m = Some (tt, bus_write c addr val m).
Proof. reflexivity. Qed.

(** ** Words and bits *)

Lemma wrap32_range (x : Z) : 0 <= wrap32 x < 2 ^ 32.
Proof. unfold wrap32. apply Z.mod_pos_bound. lia. Qed.

Lemma wrap32_small (x : Z) : 0 <= x < 2 ^ 32 -> wrap32 x = x.
Proof. intros H. unfold wrap32. apply Z.mod_small. exact H. Qed.

Lemma wrap32_idem (x : Z) : wrap32 (wrap32 x) = wrap32 x.
Proof. apply wrap32_small, wrap32_range. Qed.

Lemma wrap32_testbit (x n : Z) :
  Z.testbit (wrap32 x) n = (n <? 32) && Z.testbit x n.
Proof.
  unfold wrap32. destruct (Z.ltb_spec n 32) as [Hlt | Hge];
    rewrite ?andb_true_l, ?andb_false_l.
  - destruct (Z.ltb_spec n 0) as [Hneg | Hpos].
    + rewrite !Z.testbit_neg_r by lia. reflexivity.
    + apply Z.mod_pow2_bits_low. lia.
  - apply Z.mod_pow2_bits_high. lia.
Qed.

Lemma upd_same {A : Type} (f : Z -> A) (a : Z) (v : A) : upd f a v a = v.
Proof. unfold upd. rewrite Z.eqb_refl. reflexivity. Qed.

Lemma upd_other {A : Type} (f : Z -> A) (a b : Z) (v : A) :
  b <> a -> upd f a v b = f b.
Proof. intros H. unfold upd. destruct (Z.eqb_spec b a); [contradiction | reflexivity]. Qed.

(** ** The registry *)

Section RegistryFacts.

Context {plat : Platform}.

Lemma proc_by_node_from_some (nid : Z) (procs : list pm_proc) (p : pm_proc) :
  proc_by_node_from nid procs = Some p -> In p procs /\ node_id p = nid.
Proof.
  induction procs as [| q rest IH]; simpl; [discriminate |].
  destruct (Z.eqb_spec nid (node_id q)) as [E | E].
  - intros H. injection H as <-. auto.
  - intros H. destruct (IH H). auto.
Qed.

Lemma proc_by_node_from_none (nid : Z) (procs : list pm_proc) :
  ~ In nid (map node_id procs) -> proc_by_node_from nid procs = None.
Proof.
  induction procs as [| q rest IH]; simpl; [reflexivity |].
  intros H. destruct (Z.eqb_spec nid (node_id q)) as [E | E].
  - exfalso. apply H. left. symmetry. exact E.
  - apply IH. intros Hin. apply H. right. exact Hin.
Qed.

Lemma cpuid_from_none (nid i : Z) (procs : list pm_proc) :
  ~ In nid (map node_id procs) -> cpuid_from nid i procs = UNDEFINED_CPUID.
Proof.
  revert i. induction procs as [| q rest IH]; simpl; intros i H; [reflexivity |].
  destruct (Z.eqb_spec (node_id q) nid) as [E | E].
  - exfalso. apply H. left. exact E.
  - apply IH. intros Hin. apply H. right. exact Hin.
Qed.

(** The two scans stop at the same entry. *)
Lemma cpuid_from_found (nid i : Z) (procs : list pm_proc) :
  In nid (map node_id procs) ->
  exists (k : nat) (p : pm_proc),
    cpuid_from nid i procs = i + Z.of_nat k /\
    nth_error procs k = Some p /\
    proc_by_node_from nid procs = Some p /\
    node_id p = nid.
Proof.
  revert i. induction procs as [| q rest IH]; simpl; intros i H; [contradiction |].
  rewrite (Z.eqb_sym nid (node_id q)).
  destruct (Z.eqb_spec (node_id q) nid) as [E | E].
  - exists 0%nat, q. simpl. repeat split; auto. lia.
  - destruct H as [H | H]; [contradiction |].
    destruct (IH (i + 1) H) as (k & p & Hc & Hn & Hp & Hid).
    exists (S k), p. simpl. repeat split; auto. lia.
Qed.

(** With pairwise distinct node ids the scans find every entry at its own
    index. *)
Lemma scans_at_index (i : Z) (procs : list pm_proc) (k : nat) (p : pm_proc) :
  NoDup (map node_id procs) ->
  nth_error procs k = Some p ->
  cpuid_from (node_id p) i procs = i + Z.of_nat k /\
  proc_by_node_from (node_id p) procs = Some p.
Proof.
  revert i k. induction procs as [| q rest IH]; intros i k Hnd Hk.
  - destruct k; discriminate.
  - simpl in Hnd. inversion Hnd as [| x l Hnotin Hnd' ]; subst.
    destruct k as [| k]; simpl in Hk |- *.
    + injection Hk as ->. rewrite Z.eqb_refl. split; [lia | reflexivity].
    + assert (Hin : In (node_id p) (map node_id rest)).
      { apply in_map. eapply nth_error_In. exact Hk. }
      rewrite (Z.eqb_sym (node_id p) (node_id q)).
      destruct (Z.eqb_spec (node_id q) (node_id p)) as [E | E].
      * exfalso. apply Hnotin. rewrite E. exact Hin.
      * destruct (IH (i + 1) k Hnd' Hk) as [Hc Hp]. split; [lia | exact Hp].
Qed.

Lemma pm_get_proc_nth (cpuid : Z) :
  0 <= cpuid ->
  pm_get_proc cpuid = nth_error pm_procs_all (Z.to_nat cpuid).
Proof.
  intros Hpos. unfold pm_get_proc, PM_ARRAY_SIZE.
  destruct (Z.ltb_spec cpuid (Z.of_nat (length pm_procs_all))) as [Hlt | Hge].
  - reflexivity.
  - symmetry. apply nth_error_None. lia.
Qed.

(** C2: for every cpu index within the bounds of the registry
    ([cpuid < 4]) [pm_get_proc] returns the descriptor at that position,
    whose node id is the declared one ([NODE_APU_0] .. [NODE_APU_3] in index
    order); for every index out of bounds it returns [NULL].  The function
    is a pure function of the constant table: it takes and returns no
    machine, and lifted into a program it leaves the machine as it was. *)
Theorem pm_get_proc_in_and_out_of_bounds (cpuid : Z) :
  (0 <= cpuid < 4 ->
     pm_get_proc cpuid = nth_error pm_procs_all (Z.to_nat cpuid) /\
     exists p, pm_get_proc cpuid = Some p /\
               node_id p = nth (Z.to_nat cpuid)
                             [NODE_APU_0; NODE_APU_1; NODE_APU_2; NODE_APU_3] 0) /\
  (4 <= cpuid -> pm_get_proc cpuid = None) /\
  (forall (c : core) (m : machine),
     run c (Ret (pm_get_proc cpuid)) m = Some (pm_get_proc cpuid, m)).
Proof.
  split; [| split].
  - intros [Hlo Hhi]. split; [apply pm_get_proc_nth; exact Hlo |].
    assert (Hcases : cpuid = 0 \/ cpuid = 1 \/ cpuid = 2 \/ cpuid = 3) by lia.
    destruct Hcases as [-> | [-> | [-> | ->]]]; eexists; split; reflexivity.
  - intros Hge. unfold pm_get_proc, PM_ARRAY_SIZE. simpl length.
    destruct (Z.ltb_spec cpuid (Z.of_nat 4)) as [Hlt | _]; [lia | reflexivity].
  - reflexivity.
Qed.

(** C3: [pm_get_proc_by_node] and [pm_get_cpuid] are inverse to the
    registry over the registered node ids.  For a node id of the registry
    the first returns a descriptor with that node id and the second the index
    at which the registry holds this descriptor; for any other node id they
    return [NULL] and [UNDEFINED_CPUID]; and, the node ids of the entries
    being pairwise distinct, every entry is found again, at its own index,
    from its node id. *)
Theorem by_node_and_cpuid_inverse (nid : Z) :
  (In nid (map node_id pm_procs_all) ->
     exists p, pm_get_proc_by_node nid = Some p /\
               node_id p = nid /\
               0 <= pm_get_cpuid nid < 4 /\
               pm_get_proc (pm_get_cpuid nid) = Some p) /\
  (~ In nid (map node_id pm_procs_all) ->
     pm_get_proc_by_node nid = None /\ pm_get_cpuid nid = UNDEFINED_CPUID) /\
  (NoDup (map node_id pm_procs_all) ->
     forall (i : Z) (p : pm_proc),
       0 <= i -> pm_get_proc i = Some p ->
       pm_get_cpuid (node_id p) = i /\
       pm_get_proc_by_node (node_id p) = Some p).
Proof.
  split; [| split].
  - intros Hin.
    destruct (cpuid_from_found nid 0 pm_procs_all Hin) as (k & p & Hc & Hn & Hp & Hid).
    assert (Hk : (k < length pm_procs_all)%nat).
    { apply nth_error_Some. rewrite Hn. discriminate. }
    simpl length in Hk.
    exists p. unfold pm_get_proc_by_node, pm_get_cpuid. rewrite Hc.
    repeat split; auto; try lia.
    rewrite pm_get_proc_nth by lia.
    replace (Z.to_nat (0 + Z.of_nat k)) with k by lia. exact Hn.
  - intros Hout. split.
    + apply proc_by_node_from_none. exact Hout.
    + apply cpuid_from_none. exact Hout.
  - intros Hnd i p Hpos Hi.
    rewrite pm_get_proc_nth in Hi by exact Hpos.
    destruct (scans_at_index 0 pm_procs_all (Z.to_nat i) p Hnd Hi) as [Hc Hp].
    unfold pm_get_cpuid, pm_get_proc_by_node. split; [lia | exact Hp].
Qed.

End RegistryFacts.

(** ** The bus *)

(** Two machines that the bus cannot tell apart. *)
Definition bus_eq (m1 m2 : machine) : Prop :=
  regs m1 = regs m2 /\ clock m1 = clock m2 /\ pmu m1 = pmu m2.

Lemma bus_eq_read (c : core) (a : Z) (m1 m2 : machine) :
  bus_eq m1 m2 ->
  fst (bus_read c a m1) = fst (bus_read c a m2) /\
  bus_eq (snd (bus_read c a m1)) (snd (bus_read c a m2)).
Proof.
  intros (Hr & Hc & Hp). unfold bus_read, bus_eq, pmu_apply. simpl.
  rewrite Hr, Hc, Hp. auto.
Qed.

Lemma nth_poll_bus_eq (c : core) (a : Z) (k : nat) (m1 m2 : machine) :
  bus_eq m1 m2 -> nth_poll c a m1 k = nth_poll c a m2 k.
Proof.
  revert m1 m2. induction k as [| k IH]; intros m1 m2 H;
    destruct (bus_eq_read c a m1 m2 H) as [Hv Hm]; simpl.
  - exact Hv.
  - apply IH. exact Hm.
Qed.

Lemma trace_after_polls (c : core) (a : Z) (k : nat) (m : machine) :
  exists polls,
    trace (after_polls c a m k) = trace m ++ polls /\
    length polls = k /\
    forallb (is_read_of a) polls = true.
Proof.
  revert m. induction k as [| k IH]; intros m.
  - exists []. simpl. rewrite app_nil_r. auto.
  - destruct (IH (snd (bus_read c a m))) as (polls & Ht & Hl & Hall).
    exists ((c, EvRead a (fst (bus_read c a m))) :: polls).
    change (after_polls c a m (S k))
      with (after_polls c a (snd (bus_read c a m)) k).
    rewrite Ht. cbn [bus_read snd trace log fst]. unfold log.
    rewrite <- app_assoc. cbn [app length forallb].
    unfold is_read_of at 1. cbn [snd]. rewrite Z.eqb_refl, Hall, Hl. auto.
Qed.

Lemma lock_after_polls (c : core) (a : Z) (k : nat) (m : machine) :
  lock (after_polls c a m k) = lock m.
Proof.
  revert m. induction k as [| k IH]; intros m; [reflexivity |].
  change (after_polls c a m (S k))
    with (after_polls c a (snd (bus_read c a m)) k).
  rewrite IH. reflexivity.
Qed.

Lemma after_writes_cons (c : core) (w : Z * Z) (ws : list (Z * Z)) (m : machine) :
  after_writes c (w :: ws) m = after_writes c ws (bus_write c (fst w) (snd w) m).
Proof. reflexivity. Qed.

Lemma trace_after_writes (c : core) (ws : list (Z * Z)) (m : machine) :
  trace (after_writes c ws m) = trace m ++ map (write_event c) ws.
Proof.
  revert m. induction ws as [| w ws IH]; intros m.
  - simpl. rewrite app_nil_r. reflexivity.
  - rewrite after_writes_cons, IH. simpl. unfold log.
    rewrite <- app_assoc. reflexivity.
Qed.

Lemma lock_after_writes (c : core) (ws : list (Z * Z)) (m : machine) :
  lock (after_writes c ws m) = lock m.
Proof.
  revert m. induction ws as [| w ws IH]; intros m; [reflexivity |].
  rewrite after_writes_cons, IH. reflexivity.
Qed.

Lemma after_writes_app (c : core) (ws1 ws2 : list (Z * Z)) (m : machine) :
  after_writes c (ws1 ++ ws2) m = after_writes c ws2 (after_writes c ws1 m).
Proof. unfold after_writes. apply fold_left_app. Qed.

(** The least index at which a decidable property holds. *)
Lemma least_index (P : nat -> bool) (k : nat) :
  P k = true ->
  exists k0, (k0 <= k)%nat /\ P k0 = true /\ forall j, (j < k0)%nat -> P j = false.
Proof.
  revert P. induction k as [| k IH]; intros P Hk.
  - exists 0%nat. repeat split; auto; intros; lia.
  - destruct (P 0%nat) eqn:H0.
    + exists 0%nat. repeat split; auto; intros; lia.
    + destruct (IH (fun n => P (S n)) Hk) as (k0 & Hle & Hk0 & Hmin).
      exists (S k0). repeat split; auto; try lia.
      intros [| j] Hj; [exact H0 | apply Hmin; lia].
Qed.

Lemma wrap32_add_l (a b : Z) : wrap32 (wrap32 a + b) = wrap32 (a + b).
Proof. unfold wrap32. apply Z.add_mod_idemp_l. lia. Qed.

Lemma wrap32_add_r (a b : Z) : wrap32 (a + wrap32 b) = wrap32 (a + b).
Proof. unfold wrap32. apply Z.add_mod_idemp_r. lia. Qed.

(** ** The mailbox *)

Section MailboxFacts.

Context {plat : Platform}.

Lemma poll_done (fuel : nat) (a : Z) : poll fuel a 0 = Ret tt.
Proof. destruct fuel; reflexivity. Qed.

Lemma poll_out_of_fuel (a status : Z) : status <> 0 -> poll 0 a status = Spin.
Proof.
  intros H. simpl. destruct (Z.eqb_spec status 0); [contradiction | reflexivity].
Qed.

Lemma run_poll_step (c : core) (fuel : nat) (a status : Z) (m : machine) :
  status <> 0 ->
  run c (poll (S fuel) a status) m =
  run c (poll fuel a (Z.land (fst (bus_read c a m)) IPI_PMU_PM_INT_MASK))
      (snd (bus_read c a m)).
Proof.
  intros H. cbn [poll]. destruct (Z.eqb_spec status 0); [contradiction | reflexivity].
Qed.

(** The loop leaves at the first read that shows the bit clear. *)
Lemma run_poll_exit (c : core) (a : Z) (k : nat) :
  forall (m : machine) (status : Z) (fuel : nat),
    status <> 0 ->
    (forall j, (j < k)%nat -> Z.land (nth_poll c a m j) IPI_PMU_PM_INT_MASK <> 0) ->
    Z.land (nth_poll c a m k) IPI_PMU_PM_INT_MASK = 0 ->
    (k < fuel)%nat ->
    run c (poll fuel a status) m = Some (tt, after_polls c a m (S k)).
Proof.
  induction k as [| k IH]; intros m status fuel Hs Hbefore Hk Hfuel;
    (destruct fuel as [| fuel]; [lia |]); rewrite run_poll_step by exact Hs.
  - cbn [nth_poll] in Hk. rewrite Hk, poll_done. reflexivity.
  - change (after_polls c a m (S (S k)))
      with (after_polls c a (snd (bus_read c a m)) (S k)).
    apply IH.
    + exact (Hbefore 0%nat ltac:(lia)).
    + intros j Hj. exact (Hbefore (S j) ltac:(lia)).
    + exact Hk.
    + lia.
Qed.

(** While every read shows the bit set the loop goes on. *)
Lemma run_poll_spin (c : core) (a : Z) (fuel : nat) :
  forall (m : machine) (status : Z),
    status <> 0 ->
    (forall j, (j < fuel)%nat -> Z.land (nth_poll c a m j) IPI_PMU_PM_INT_MASK <> 0) ->
    run c (poll fuel a status) m = None.
Proof.
  induction fuel as [| fuel IH]; intros m status Hs Hall.
  - rewrite poll_out_of_fuel by exact Hs. reflexivity.
  - rewrite run_poll_step by exact Hs. apply IH.
    + exact (Hall 0%nat ltac:(lia)).
    + intros j Hj. exact (Hall (S j) ltac:(lia)).
Qed.

(** Within a bound a decidable property holds nowhere or has a least
    index. *)
Lemma bounded_search (P : nat -> bool) (n : nat) :
  (forall j, (j < n)%nat -> P j = false) \/
  (exists k, (k < n)%nat /\ P k = true /\ forall j, (j < k)%nat -> P j = false).
Proof.
  induction n as [| n [IH | IH]].
  - left. intros j Hj. lia.
  - destruct (P n) eqn:Hn.
    + right. exists n. repeat split; auto.
    + left. intros j Hj. destruct (Nat.eq_dec j n) as [-> | Hne]; [exact Hn |].
      apply IH. lia.
  - right. destruct IH as (k & Hk & HP & Hmin). exists k. repeat split; auto.
Qed.

Lemma pending_after_lock_get (c : core) (proc : pm_proc) (m : machine) (k : nat) :
  Z.land (nth_poll c (observation_register proc) (apply_effect c LockGet m) k)
         IPI_PMU_PM_INT_MASK
  = pending c proc m k.
Proof.
  unfold pending. f_equal. apply nth_poll_bus_eq. repeat split.
Qed.

Lemma run_bind_do {B : Type} (c : core) (e : effect) (f : unit -> prog B) (m : machine) :
  run c (bind (Do e (Ret tt)) f) m = run c (f tt) (apply_effect c e m).
Proof. reflexivity. Qed.

Lemma run_pm_ipi_wait (c : core) (fuel : nat) (proc : pm_proc) (m : machine) :
  run c (pm_ipi_wait fuel proc) m =
  match run c (poll fuel (observation_register proc) 1) (apply_effect c LockGet m) with
  | Some (_, m') => Some (PM_RET_SUCCESS, apply_effect c LockRelease m')
  | None => None
  end.
Proof.
  unfold pm_ipi_wait, bakery_lock_get, bakery_lock_release.
  rewrite run_bind_do, run_bind.
  change (add32 (base (ipi proc)) IPI_OBS_OFFSET) with (observation_register proc).
  destruct (run c (poll fuel (observation_register proc) 1) (apply_effect c LockGet m))
    as [[u m'] |]; reflexivity.
Qed.

Lemma pm_ipi_wait_exit (c : core) (proc : pm_proc) (m : machine) (k fuel : nat) :
  (forall j, (j < k)%nat -> pending c proc m j <> 0) ->
  pending c proc m k = 0 ->
  (k < fuel)%nat ->
  run c (pm_ipi_wait fuel proc) m = Some (PM_RET_SUCCESS, after_wait c proc m k).
Proof.
  intros Hbefore Hk Hfuel. rewrite run_pm_ipi_wait.
  rewrite (run_poll_exit c (observation_register proc) k); try reflexivity; try lia.
  - intros j Hj. rewrite pending_after_lock_get. apply Hbefore. exact Hj.
  - rewrite pending_after_lock_get. exact Hk.
Qed.

Lemma pm_ipi_wait_spin (c : core) (proc : pm_proc) (m : machine) (fuel : nat) :
  (forall j, (j < fuel)%nat -> pending c proc m j <> 0) ->
  run c (pm_ipi_wait fuel proc) m = None.
Proof.
  intros Hall. rewrite run_pm_ipi_wait.
  rewrite (run_poll_spin c (observation_register proc) fuel); try reflexivity; try lia.
  intros j Hj. rewrite pending_after_lock_get. apply Hall. exact Hj.
Qed.

(** A call that returns has seen the bit clear at some read, the first
    such, and returns there. *)
Lemma pm_ipi_wait_returns (c : core) (proc : pm_proc) (m : machine) (fuel : nat)
    (r : Z) (m' : machine) :
  run c (pm_ipi_wait fuel proc) m = Some (r, m') ->
  exists k, (k < fuel)%nat /\
            pending c proc m k = 0 /\
            (forall j, (j < k)%nat -> pending c proc m j <> 0) /\
            r = PM_RET_SUCCESS /\ m' = after_wait c proc m k.
Proof.
  intros Hrun.
  destruct (bounded_search (fun j => pending c proc m j =? 0) fuel)
    as [Hnone | (k & Hk & Hclear & Hmin)].
  - rewrite pm_ipi_wait_spin in Hrun; [discriminate |].
    intros j Hj. apply Z.eqb_neq. apply Hnone. exact Hj.
  - apply Z.eqb_eq in Hclear.
    assert (Hbefore : forall j, (j < k)%nat -> pending c proc m j <> 0).
    { intros j Hj. apply Z.eqb_neq. apply Hmin. exact Hj. }
    rewrite (pm_ipi_wait_exit c proc m k fuel Hbefore Hclear Hk) in Hrun.
    injection Hrun as <- <-. exists k. repeat split; auto.
Qed.

(** C6: when the PMU is live, that is when some poll of the observation
    register of the channel shows the request-pending bit clear,
    [pm_ipi_wait] returns [PM_RET_SUCCESS] for every descriptor, given turns
    enough of its loop; when no poll ever shows the bit clear, it does not
    return, however many turns it is given: there is no timeout. *)
Theorem pm_ipi_wait_returns_iff_pmu_live (c : core) (proc : pm_proc) (m : machine) :
  ((exists k, pending c proc m k = 0) ->
     exists (fuel0 : nat) (m' : machine),
       forall fuel, (fuel0 <= fuel)%nat ->
         run c (pm_ipi_wait fuel proc) m = Some (PM_RET_SUCCESS, m')) /\
  ((forall k, pending c proc m k <> 0) ->
     forall fuel, run c (pm_ipi_wait fuel proc) m = None).
Proof.
  split.
  - intros [k Hk].
    destruct (least_index (fun j => pending c proc m j =? 0) k)
      as (k0 & Hle & Hclear & Hmin).
    { apply Z.eqb_eq. exact Hk. }
    apply Z.eqb_eq in Hclear.
    exists (S k0), (after_wait c proc m k0). intros fuel Hfuel.
    apply pm_ipi_wait_exit; [| exact Hclear | lia].
    intros j Hj. apply Z.eqb_neq. apply Hmin. exact Hj.
  - intros Hnever fuel. apply pm_ipi_wait_spin. intros j _. apply Hnever.
Qed.

Lemma trace_after_wait (c : core) (proc : pm_proc) (m : machine) (k : nat) :
  exists polls,
    trace (after_wait c proc m k) =
      trace m ++ [(c, EvAcquire)] ++ polls ++ [(c, EvRelease)] /\
    forallb (is_read_of (observation_register proc)) polls = true /\
    length polls = S k /\
    lock (after_wait c proc m k) = None.
Proof.
  unfold after_wait.
  pose proof (lock_after_polls c (observation_register proc) (S k)
                (apply_effect c LockGet m)) as Hlock.
  destruct (trace_after_polls c (observation_register proc) (S k)
              (apply_effect c LockGet m)) as (polls & Ht & Hl & Hall).
  set (m0 := apply_effect c LockGet m) in *.
  set (m1 := after_polls c (observation_register proc) m0 (S k)) in *.
  exists polls. cbn [apply_effect trace lock]. unfold log. rewrite Ht.
  subst m0. cbn [apply_effect trace]. unfold log.
  rewrite <- !app_assoc. auto.
Qed.

Lemma request_base_eq (proc : pm_proc) (off : Z) (k : nat) :
  wrap32 (add32 (add32 (buffer_base (ipi proc)) IPI_BUFFER_TARGET_PMU_OFFSET)
                IPI_BUFFER_REQ_OFFSET + off + Z.of_nat k * PAYLOAD_ARG_SIZE)
  = wrap32 (buffer_base (ipi proc) + IPI_BUFFER_TARGET_PMU_OFFSET
            + IPI_BUFFER_REQ_OFFSET + off + Z.of_nat k * PAYLOAD_ARG_SIZE).
Proof.
  unfold add32. rewrite <- !Z.add_assoc. rewrite wrap32_add_l.
  rewrite <- !Z.add_assoc. rewrite wrap32_add_l. f_equal. ring.
Qed.

(** The loop of [pm_ipi_send] stores word [i + k] of the payload [k] words
    past where it starts. *)
Lemma run_write_payload (c : core) (bbase : Z) (payload : list Z) (n : nat) :
  forall (i : nat) (off : Z) (m : machine),
    run c (write_payload n i bbase off payload) m =
    Some (tt, after_writes c
                (map (fun k => (wrap32 (bbase + off + Z.of_nat k * PAYLOAD_ARG_SIZE),
                                nth (i + k) payload 0))
                     (seq 0 n)) m).
Proof.
  induction n as [| n IH]; intros i off m; [reflexivity |].
  cbn [write_payload]. rewrite run_bind, run_pm_write, IH.
  cbn [seq]. rewrite <- seq_shift. cbn [map]. rewrite map_map, after_writes_cons.
  cbn [fst snd]. do 2 f_equal.
  replace (wrap32 (bbase + off + Z.of_nat 0 * PAYLOAD_ARG_SIZE))
    with (add32 bbase off) by (unfold add32; f_equal; lia).
  rewrite Nat.add_0_r. f_equal.
  apply map_ext. intros k. f_equal.
  - unfold add32.
    replace (bbase + wrap32 (off + PAYLOAD_ARG_SIZE) + Z.of_nat k * PAYLOAD_ARG_SIZE)
      with ((bbase + Z.of_nat k * PAYLOAD_ARG_SIZE) + wrap32 (off + PAYLOAD_ARG_SIZE))
      by ring.
    rewrite wrap32_add_r. f_equal. lia.
  - f_equal. lia.
Qed.

(** Pairing the words of a list with a function of their indices. *)
Lemma combine_indices {A : Type} (d : Z) (l : list Z) :
  forall (f : nat -> A),
    combine (map f (seq 0 (length l))) l
    = map (fun k => (f k, nth k l d)) (seq 0 (length l)).
Proof.
  induction l as [| x l IH]; intros f; [reflexivity |].
  cbn [length seq]. rewrite <- seq_shift. cbn [map combine].
  rewrite !map_map. f_equal. apply (IH (fun k => f (S k))).
Qed.

Lemma run_pm_ipi_send (c : core) (fuel : nat) (proc : pm_proc) (payload : list Z)
    (m : machine) :
  length payload = PAYLOAD_ARG_CNT ->
  run c (pm_ipi_send fuel proc payload) m =
  match run c (pm_ipi_wait fuel proc) m with
  | Some (_, mw) =>
      Some (PM_RET_SUCCESS, after_writes c (request_writes proc payload) mw)
  | None => None
  end.
Proof.
  intros Hlen. unfold pm_ipi_send. cbv zeta. rewrite run_bind.
  destruct (run c (pm_ipi_wait fuel proc) m) as [[r mw] |]; [| reflexivity].
  rewrite run_bind, run_write_payload, run_bind, run_pm_write.
  cbn [run]. do 2 f_equal.
  unfold request_writes. rewrite after_writes_app.
  rewrite (combine_indices 0), Hlen.
  change (bus_write c (add32 (base (ipi proc)) IPI_TRIG_OFFSET) IPI_PMU_PM_INT_MASK)
    with (after_writes c [(trigger_register proc, IPI_PMU_PM_INT_MASK)]).
  do 2 f_equal. apply map_ext. intros k. f_equal.
  rewrite request_base_eq. unfold request_word. f_equal. ring.
Qed.

(** C4: for every descriptor and every payload of [PAYLOAD_ARG_CNT] words
    [pm_ipi_send] first waits for the channel to clear, then stores the
    payload words in order into the request region, word [i] at the request
    base plus [i] times [PAYLOAD_ARG_SIZE], then stores the trigger bit into
    the trigger register, and returns [PM_RET_SUCCESS]: whenever the wait
    returns so does the send, the machine being the one the wait left with
    exactly these stores made and logged after it, and no read. *)
Theorem pm_ipi_send_waits_writes_triggers (c : core) (fuel : nat)
    (proc : pm_proc) (payload : list Z) (m : machine) :
  length payload = PAYLOAD_ARG_CNT ->
  run c (pm_ipi_send fuel proc payload) m =
    match run c (pm_ipi_wait fuel proc) m with
    | Some (_, mw) =>
        Some (PM_RET_SUCCESS, after_writes c (request_writes proc payload) mw)
    | None => None
    end /\
  request_writes proc payload =
    combine (map (request_word proc) (seq 0 PAYLOAD_ARG_CNT)) payload
    ++ [(trigger_register proc, IPI_PMU_PM_INT_MASK)] /\
  (forall mw,
     trace (after_writes c (request_writes proc payload) mw) =
     trace mw ++ map (write_event c) (request_writes proc payload)).
Proof.
  intros Hlen. split; [| split].
  - apply run_pm_ipi_send. exact Hlen.
  - unfold request_writes. rewrite Hlen. reflexivity.
  - intros mw. apply trace_after_writes.
Qed.

Lemma response_base_eq (proc : pm_proc) :
  add32 (add32 (buffer_base (ipi proc)) IPI_BUFFER_TARGET_PMU_OFFSET)
        IPI_BUFFER_RESP_OFFSET
  = response_word proc 0.
Proof.
  unfold add32, response_word. rewrite wrap32_add_l. f_equal. simpl Z.of_nat. ring.
Qed.

Lemma response_value_eq (proc : pm_proc) :
  add32 (add32 (add32 (buffer_base (ipi proc)) IPI_BUFFER_TARGET_PMU_OFFSET)
               IPI_BUFFER_RESP_OFFSET) PAYLOAD_ARG_SIZE
  = response_word proc 1.
Proof.
  unfold add32, response_word. rewrite wrap32_add_l, <- Z.add_assoc, wrap32_add_l.
  f_equal. simpl Z.of_nat. ring.
Qed.

Lemma run_pm_ipi_buff_read32 (c : core) (fuel : nat) (proc : pm_proc)
    (value : option Z) (m : machine) :
  run c (pm_ipi_buff_read32 fuel proc value) m =
  match run c (pm_ipi_wait fuel proc) m with
  | Some (_, mw) =>
      match value with
      | Some ptr =>
          let v := fst (bus_read c (response_word proc 1) mw) in
          let m1 := snd (bus_read c (response_word proc 1) mw) in
          Some (bus_read c (response_word proc 0) (apply_effect c (StoreOut ptr v) m1))
      | None => Some (bus_read c (response_word proc 0) mw)
      end
  | None => None
  end.
Proof.
  unfold pm_ipi_buff_read32. cbv zeta.
  rewrite response_value_eq, response_base_eq, run_bind.
  destruct (run c (pm_ipi_wait fuel proc) m) as [[r mw] |]; [| reflexivity].
  destruct value as [ptr |]; reflexivity.
Qed.

(** C5: for every descriptor [pm_ipi_buff_read32] waits for the channel
    to clear and then returns the status word it reads from the first word
    of the response region, whenever the wait returns.  With a [NULL] value
    pointer that read is all it does: the second word is not read and no
    store through the pointer is made.  With a pointer it reads the second
    response word before and stores it through the pointer, and nowhere
    else. *)
Theorem pm_ipi_buff_read32_status_and_value (c : core) (fuel : nat)
    (proc : pm_proc) (value : option Z) (m : machine) :
  (run c (pm_ipi_wait fuel proc) m = None ->
     run c (pm_ipi_buff_read32 fuel proc value) m = None) /\
  (forall r mw,
     run c (pm_ipi_wait fuel proc) m = Some (r, mw) ->
     exists status m',
       run c (pm_ipi_buff_read32 fuel proc value) m = Some (status, m') /\
       match value with
       | None =>
           status = fst (bus_read c (response_word proc 0) mw) /\
           trace m' = trace mw ++ [(c, EvRead (response_word proc 0) status)] /\
           ram m' = ram mw
       | Some ptr =>
           exists v m1,
             bus_read c (response_word proc 1) mw = (v, m1) /\
             status =
               fst (bus_read c (response_word proc 0)
                             (apply_effect c (StoreOut ptr v) m1)) /\
             trace m' = trace mw ++ [(c, EvRead (response_word proc 1) v);
                                     (c, EvStore ptr v);
                                     (c, EvRead (response_word proc 0) status)] /\
             ram m' ptr = v /\
             (forall q, q <> ptr -> ram m' q = ram mw q)
       end).
Proof.
  rewrite run_pm_ipi_buff_read32. split.
  - intros ->. reflexivity.
  - intros r mw ->. destruct value as [ptr |].
    + eexists. eexists. split; [reflexivity |].
      eexists. eexists. split; [reflexivity |].
      cbn [bus_read fst snd apply_effect trace ram log].
      unfold log. cbn [trace]. rewrite wrap32_idem, <- !app_assoc.
      repeat split.
      * apply upd_same.
      * intros q Hq. apply upd_other. exact Hq.
    + eexists. eexists. split; [reflexivity |].
      cbn [bus_read fst snd trace ram log]. auto.
Qed.

(** C10: every call of [pm_ipi_wait] that returns has taken the lock
    once, then only read the observation register, then released the lock
    once, and returns with the lock free.  Hence every [pm_ipi_send] and
    [pm_ipi_buff_read32] that returns has made its stores to the request
    buffer and the trigger register, and its reads of the response buffer,
    after that release, with no lock event among them and the lock free at
    the end. *)
Theorem mailbox_accesses_follow_lock_release (c : core) (fuel : nat)
    (proc : pm_proc) (m : machine) :
  (forall r m',
     run c (pm_ipi_wait fuel proc) m = Some (r, m') ->
     exists polls,
       trace m' = trace m ++ [(c, EvAcquire)] ++ polls ++ [(c, EvRelease)] /\
       forallb (is_read_of (observation_register proc)) polls = true /\
       lock m' = None) /\
  (forall payload r m',
     length payload = PAYLOAD_ARG_CNT ->
     run c (pm_ipi_send fuel proc payload) m = Some (r, m') ->
     exists polls,
       trace m' = trace m ++ [(c, EvAcquire)] ++ polls ++ [(c, EvRelease)]
                  ++ map (write_event c) (request_writes proc payload) /\
       forallb (is_read_of (observation_register proc)) polls = true /\
       lock m' = None) /\
  (forall value r m',
     run c (pm_ipi_buff_read32 fuel proc value) m = Some (r, m') ->
     exists polls accesses,
       trace m' = trace m ++ [(c, EvAcquire)] ++ polls ++ [(c, EvRelease)]
                  ++ accesses /\
       forallb (is_read_of (observation_register proc)) polls = true /\
       existsb is_lock_event accesses = false /\
       In (c, EvRead (response_word proc 0) r) accesses /\
       lock m' = None).
Proof.
  split; [| split].
  - intros r m' Hrun.
    destruct (pm_ipi_wait_returns c proc m fuel r m' Hrun) as (k & _ & _ & _ & _ & ->).
    destruct (trace_after_wait c proc m k) as (polls & Ht & Hall & _ & Hlock).
    exists polls. auto.
  - intros payload r m' Hlen Hrun. rewrite run_pm_ipi_send in Hrun by exact Hlen.
    destruct (run c (pm_ipi_wait fuel proc) m) as [[r0 mw] |] eqn:Hwait; [| discriminate].
    injection Hrun as <- <-.
    destruct (pm_ipi_wait_returns c proc m fuel r0 mw Hwait) as (k & _ & _ & _ & _ & ->).
    destruct (trace_after_wait c proc m k) as (polls & Ht & Hall & _ & Hlock).
    exists polls. rewrite trace_after_writes, lock_after_writes, Ht.
    rewrite <- !app_assoc. auto.
  - intros value r m' Hrun. rewrite run_pm_ipi_buff_read32 in Hrun.
    destruct (run c (pm_ipi_wait fuel proc) m) as [[r0 mw] |] eqn:Hwait; [| discriminate].
    destruct (pm_ipi_wait_returns c proc m fuel r0 mw Hwait) as (k & _ & _ & _ & _ & ->).
    destruct (trace_after_wait c proc m k) as (polls & Ht & Hall & _ & Hlock).
    exists polls. destruct value as [ptr |]; cbv zeta in Hrun;
      injection Hrun as <- <-;
      cbn [bus_read fst snd apply_effect trace lock log]; unfold log;
      cbn [trace]; rewrite Ht, <- !app_assoc; cbn [app];
      eexists; (split; [reflexivity |]); repeat split; auto;
      cbn [In]; auto.
Qed.

End MailboxFacts.

(** ** The power-control register *)

Lemma testbit_not32 (k b : Z) :
  0 <= b -> Z.testbit (not32 k) b = (b <? 32) && negb (Z.testbit k b).
Proof.
  intros Hb. unfold not32. rewrite wrap32_testbit, Z.lnot_spec by exact Hb.
  reflexivity.
Qed.

Lemma testbit_reg32 (m : machine) (a b : Z) :
  Z.testbit (reg32 m a) b = (b <? 32) && Z.testbit (regs m a) b.
Proof. apply wrap32_testbit. Qed.

Ltac by_bits :=
  apply Z.bits_inj'; intros ?b ?Hb;
  rewrite ?wrap32_testbit, ?Z.land_spec, ?Z.lor_spec, ?Z.bits_0;
  rewrite ?testbit_not32 by assumption;
  rewrite ?wrap32_testbit, ?Z.land_spec, ?Z.lor_spec;
  btauto.

Lemma wrap32_lor_small (v k : Z) :
  0 <= k < 2 ^ 32 -> wrap32 (Z.lor (wrap32 v) k) = Z.lor (wrap32 v) k.
Proof.
  intros Hk. rewrite <- (wrap32_small k Hk). by_bits.
Qed.

Lemma wrap32_land_not32 (v k : Z) :
  wrap32 (Z.land (wrap32 v) (not32 k)) = Z.land (wrap32 v) (not32 k).
Proof. by_bits. Qed.

Lemma land_not32_clear (v k : Z) : Z.land (Z.land (wrap32 v) (not32 k)) k = 0.
Proof. by_bits. Qed.

Lemma land_not32_idem (v k : Z) :
  Z.land (Z.land (wrap32 v) (not32 k)) (not32 k) = Z.land (wrap32 v) (not32 k).
Proof. by_bits. Qed.

Lemma land_not32_noop (v k : Z) :
  Z.land (wrap32 v) k = 0 -> Z.land (wrap32 v) (not32 k) = wrap32 v.
Proof.
  intros H. apply Z.bits_inj'. intros b Hb.
  assert (Hbit : Z.testbit (Z.land (wrap32 v) k) b = false)
    by (rewrite H; apply Z.bits_0).
  rewrite Z.land_spec, wrap32_testbit in Hbit.
  rewrite Z.land_spec, testbit_not32, wrap32_testbit by exact Hb.
  destruct (b <? 32), (Z.testbit v b), (Z.testbit k b); simpl in *; congruence.
Qed.

Section PowerFacts.

Context {plat : Platform}.

Lemma pmu_apply_quiet (m : machine) (a : Z) :
  pmu_leaves m a -> pmu_apply m a = regs m a.
Proof. intros H. unfold pmu_apply. rewrite H. reflexivity. Qed.

(** What a read-modify-write of a register no one else writes leaves in
    it. *)
Lemma reg32_after_rmw (c : core) (a : Z) (f : Z -> Z) (m : machine) :
  pmu_leaves m a ->
  reg32 (bus_write c a (f (fst (bus_read c a m))) (snd (bus_read c a m))) a
  = wrap32 (f (reg32 m a)).
Proof.
  intros H. unfold reg32. cbn [bus_read bus_write fst snd regs].
  rewrite upd_same, pmu_apply_quiet by exact H. apply wrap32_idem.
Qed.

Lemma run_pm_client_suspend (c : core) (proc : pm_proc) (m : machine) :
  pmu_leaves m APU_PWRCTL ->
  exists m1,
    run c (pm_client_suspend proc) m = Some (tt, m1) /\
    reg32 m1 APU_PWRCTL = wrap32 (Z.lor (reg32 m APU_PWRCTL) (pwrdn_mask proc)) /\
    gic m1 c = false /\
    (forall c', c' <> c -> gic m1 c' = gic m c') /\
    pmu m1 = pmu m.
Proof.
  intros Hq. eexists. split; [reflexivity |].
  split; [| repeat split].
  - apply (reg32_after_rmw c APU_PWRCTL (fun v => Z.lor v (pwrdn_mask proc))
             (apply_effect c GicDeactivate m)). exact Hq.
  - cbn. unfold upd_core. rewrite Nat.eqb_refl. reflexivity.
  - intros c' Hc'. cbn. unfold upd_core.
    destruct (Nat.eqb_spec c' c); [contradiction | reflexivity].
Qed.

Lemma run_pm_client_abort_suspend (c : core) (m : machine) :
  pmu_leaves m APU_PWRCTL ->
  exists m1,
    run c pm_client_abort_suspend m = Some (tt, m1) /\
    reg32 m1 APU_PWRCTL =
      Z.land (reg32 m APU_PWRCTL) (not32 (pwrdn_mask primary_proc)) /\
    regs m1 APU_PWRCTL = reg32 m1 APU_PWRCTL /\
    gic m1 c = true /\
    (forall c', c' <> c -> gic m1 c' = gic m c') /\
    pmu m1 = pmu m.
Proof.
  intros Hq.
  exists (bus_write c APU_PWRCTL
            (Z.land (fst (bus_read c APU_PWRCTL (apply_effect c GicSetup m)))
                    (not32 (pwrdn_mask primary_proc)))
            (snd (bus_read c APU_PWRCTL (apply_effect c GicSetup m)))).
  split; [reflexivity |].
  split; [| split; [| repeat split]].
  - etransitivity.
    + apply (reg32_after_rmw c APU_PWRCTL
               (fun v => Z.land v (not32 (pwrdn_mask primary_proc)))
               (apply_effect c GicSetup m)). exact Hq.
    + apply wrap32_land_not32.
  - unfold reg32. cbn [bus_write regs]. rewrite upd_same, wrap32_idem. reflexivity.
  - cbn. unfold upd_core. rewrite Nat.eqb_refl. reflexivity.
  - intros c' Hc'. cbn. unfold upd_core.
    destruct (Nat.eqb_spec c' c); [contradiction | reflexivity].
Qed.

Lemma run_pm_client_wakeup_found (c : core) (proc : pm_proc) (m : machine) :
  pm_get_cpuid (node_id proc) <> UNDEFINED_CPUID ->
  pmu_leaves m APU_PWRCTL ->
  exists m1,
    run c (pm_client_wakeup proc) m = Some (tt, m1) /\
    reg32 m1 APU_PWRCTL = Z.land (reg32 m APU_PWRCTL) (not32 (pwrdn_mask proc)) /\
    gic m1 = gic m /\
    pmu m1 = pmu m.
Proof.
  intros Hfound Hq. unfold pm_client_wakeup. cbv zeta.
  destruct (Z.eqb_spec UNDEFINED_CPUID (pm_get_cpuid (node_id proc))) as [E | _];
    [congruence |].
  cbn [negb]. eexists. split; [reflexivity |]. split; [| split; reflexivity].
  etransitivity.
  - apply (reg32_after_rmw c APU_PWRCTL
             (fun v => Z.land v (not32 (pwrdn_mask proc))) m). exact Hq.
  - apply wrap32_land_not32.
Qed.

(** C7: aborting a suspend twice in a row.  From every state of the
    power-control register (which no one else writes meanwhile) each of the
    two calls leaves the bit of the primary core clear and the CPU interface
    of the caller active, and the second call leaves the register as the
    first left it; a call made while the bit is clear leaves the register as
    it found it. *)
Theorem pm_client_abort_suspend_idempotent (c : core) (m : machine) :
  pmu_leaves m APU_PWRCTL ->
  exists m1 m2,
    run c pm_client_abort_suspend m = Some (tt, m1) /\
    run c pm_client_abort_suspend m1 = Some (tt, m2) /\
    Z.land (reg32 m1 APU_PWRCTL) (pwrdn_mask primary_proc) = 0 /\
    Z.land (reg32 m2 APU_PWRCTL) (pwrdn_mask primary_proc) = 0 /\
    reg32 m2 APU_PWRCTL = reg32 m1 APU_PWRCTL /\
    regs m2 APU_PWRCTL = regs m1 APU_PWRCTL /\
    gic m1 c = true /\ gic m2 c = true /\
    (Z.land (reg32 m APU_PWRCTL) (pwrdn_mask primary_proc) = 0 ->
       reg32 m1 APU_PWRCTL = reg32 m APU_PWRCTL).
Proof.
  intros Hq.
  destruct (run_pm_client_abort_suspend c m Hq)
    as (m1 & Hrun1 & Hreg1 & Hraw1 & Hgic1 & _ & Hpmu1).
  assert (Hq1 : pmu_leaves m1 APU_PWRCTL).
  { intros n. rewrite Hpmu1. apply Hq. }
  destruct (run_pm_client_abort_suspend c m1 Hq1)
    as (m2 & Hrun2 & Hreg2 & Hraw2 & Hgic2 & _ & _).
  assert (Hsame : reg32 m2 APU_PWRCTL = reg32 m1 APU_PWRCTL).
  { rewrite Hreg2, Hreg1. apply land_not32_idem. }
  exists m1, m2. repeat split; auto.
  - rewrite Hreg1. apply land_not32_clear.
  - rewrite Hsame, Hreg1. apply land_not32_clear.
  - rewrite Hraw2, Hraw1. exact Hsame.
  - intros Hclear. rewrite Hreg1. apply land_not32_noop. exact Hclear.
Qed.

(** C8: waking a descriptor whose node id is not in the registry.
    [pm_get_cpuid] returns [UNDEFINED_CPUID] for it and [pm_client_wakeup]
    returns at once: the machine, the power-control register with it, is
    left as it was, with nothing read, written or logged. *)
Theorem pm_client_wakeup_unregistered_is_noop (c : core) (proc : pm_proc)
    (m : machine) :
  (~ In (node_id proc) (map node_id pm_procs_all) ->
     pm_get_cpuid (node_id proc) = UNDEFINED_CPUID) /\
  (pm_get_cpuid (node_id proc) = UNDEFINED_CPUID ->
     run c (pm_client_wakeup proc) m = Some (tt, m)).
Proof.
  split.
  - intros Hout. apply cpuid_from_none. exact Hout.
  - intros Hid. unfold pm_client_wakeup. cbv zeta.
    rewrite Hid, Z.eqb_refl. reflexivity.
Qed.

Lemma testbit_set_bit (v i b : Z) :
  0 <= i < 32 ->
  Z.testbit (wrap32 (Z.lor (wrap32 v) (2 ^ i))) b =
  if b =? i then true else Z.testbit (wrap32 v) b.
Proof.
  intros Hi. destruct (Z.ltb_spec b 0) as [Hneg | Hpos].
  - rewrite !Z.testbit_neg_r by lia.
    destruct (Z.eqb_spec b i); [lia | reflexivity].
  - rewrite !wrap32_testbit, Z.lor_spec, wrap32_testbit, Z.pow2_bits_eqb by lia.
    rewrite (Z.eqb_sym i b).
    destruct (Z.eqb_spec b i) as [-> | _].
    + destruct (Z.ltb_spec i 32); [btauto | lia].
    + btauto.
Qed.

Lemma testbit_clear_bit (v i b : Z) :
  0 <= i < 32 ->
  Z.testbit (Z.land (wrap32 v) (not32 (2 ^ i))) b =
  if b =? i then false else Z.testbit (wrap32 v) b.
Proof.
  intros Hi. destruct (Z.ltb_spec b 0) as [Hneg | Hpos].
  - rewrite !Z.testbit_neg_r by lia.
    destruct (Z.eqb_spec b i); reflexivity.
  - rewrite Z.land_spec, testbit_not32, wrap32_testbit, Z.pow2_bits_eqb by lia.
    rewrite (Z.eqb_sym i b).
    destruct (Z.eqb_spec b i) as [-> | _]; btauto.
Qed.

(** C9: each power transition touches the bit of its own core only.  With
    the power-down masks of cores 0 and 1 at bit0 and bit1, the sentinel
    past the indices of the registry and no other writer of the register:
    from every register state [pm_client_suspend] for core 1 sets bit1
    (new = old | mask, every other bit as before) and switches the CPU
    interface of the caller, and of no other core, off; a following
    [pm_client_wakeup] for core 1, made by another core, clears bit1
    (new = old & ~mask, every other bit as before); and
    [pm_client_abort_suspend] then clears bit0 and leaves bit1, as every
    other bit, as it was. *)
Theorem power_transitions_touch_own_bit (c0 c1 : core) (m : machine) :
  pmu_leaves m APU_PWRCTL ->
  APU_0_PWRCTL_CPUPWRDWNREQ_MASK = 2 ^ 0 ->
  APU_1_PWRCTL_CPUPWRDWNREQ_MASK = 2 ^ 1 ->
  4 <= UNDEFINED_CPUID ->
  exists m1 m2 m3,
    run c1 (pm_client_suspend pm_apu_1_proc) m = Some (tt, m1) /\
    reg32 m1 APU_PWRCTL =
      Z.lor (reg32 m APU_PWRCTL) (pwrdn_mask pm_apu_1_proc) /\
    (forall b, Z.testbit (reg32 m1 APU_PWRCTL) b =
               if b =? 1 then true else Z.testbit (reg32 m APU_PWRCTL) b) /\
    gic m1 c1 = false /\
    (forall c, c <> c1 -> gic m1 c = gic m c) /\
    run c0 (pm_client_wakeup pm_apu_1_proc) m1 = Some (tt, m2) /\
    reg32 m2 APU_PWRCTL =
      Z.land (reg32 m1 APU_PWRCTL) (not32 (pwrdn_mask pm_apu_1_proc)) /\
    (forall b, Z.testbit (reg32 m2 APU_PWRCTL) b =
               if b =? 1 then false else Z.testbit (reg32 m1 APU_PWRCTL) b) /\
    run c0 pm_client_abort_suspend m2 = Some (tt, m3) /\
    reg32 m3 APU_PWRCTL =
      Z.land (reg32 m2 APU_PWRCTL) (not32 (pwrdn_mask primary_proc)) /\
    (forall b, Z.testbit (reg32 m3 APU_PWRCTL) b =
               if b =? 0 then false else Z.testbit (reg32 m2 APU_PWRCTL) b) /\
    Z.testbit (reg32 m3 APU_PWRCTL) 1 = Z.testbit (reg32 m2 APU_PWRCTL) 1.
Proof.
  intros Hq Hmask0 Hmask1 Hsentinel.
  destruct (run_pm_client_suspend c1 pm_apu_1_proc m Hq)
    as (m1 & Hrun1 & Hreg1 & Hoff & Hothers & Hpmu1).
  assert (Hq1 : pmu_leaves m1 APU_PWRCTL).
  { intros n. rewrite Hpmu1. apply Hq. }
  assert (Hfound : pm_get_cpuid (node_id pm_apu_1_proc) <> UNDEFINED_CPUID).
  { unfold pm_get_cpuid. cbn [pm_procs_all cpuid_from node_id pm_apu_0_proc pm_apu_1_proc].
    destruct (NODE_APU_0 =? NODE_APU_1); [lia |].
    rewrite Z.eqb_refl. lia. }
  destruct (run_pm_client_wakeup_found c0 pm_apu_1_proc m1 Hfound Hq1)
    as (m2 & Hrun2 & Hreg2 & _ & Hpmu2).
  assert (Hq2 : pmu_leaves m2 APU_PWRCTL).
  { intros n. rewrite Hpmu2. apply Hq1. }
  destruct (run_pm_client_abort_suspend c0 m2 Hq2)
    as (m3 & Hrun3 & Hreg3 & _ & _ & _ & _).
  cbn [pwrdn_mask pm_apu_1_proc primary_proc pm_apu_0_proc] in *.
  rewrite Hmask0 in *. rewrite Hmask1 in *.
  assert (Hbits3 : forall b, Z.testbit (reg32 m3 APU_PWRCTL) b =
                             if b =? 0 then false else Z.testbit (reg32 m2 APU_PWRCTL) b).
  { intros b. rewrite Hreg3. apply testbit_clear_bit. lia. }
  exists m1, m2, m3. repeat split; auto.
  - rewrite Hreg1. apply wrap32_lor_small. unfold Z.pow, Z.pow_pos; simpl; lia.
  - intros b. rewrite Hreg1. apply testbit_set_bit. lia.
  - intros b. rewrite Hreg2. apply testbit_clear_bit. lia.
Qed.

End PowerFacts.

(** If no one else writes a register every poll of it reads the same. *)
Lemma nth_poll_quiet (c : core) (a : Z) (k : nat) :
  forall m, pmu_leaves m a -> nth_poll c a m k = reg32 m a.
Proof.
  induction k as [| k IH]; intros m Hq.
  - cbn [nth_poll bus_read fst]. rewrite pmu_apply_quiet by exact Hq. reflexivity.
  - cbn [nth_poll]. rewrite IH.
    + unfold reg32. cbn [bus_read snd regs]. rewrite pmu_apply_quiet by exact Hq.
      reflexivity.
    + intros n. apply Hq.
Qed.

(** ** Several cores on one channel *)

(** While a core holds the lock no core gets it. *)
Lemma cstep_lock_held (c holder : core) (s : system) (k : prog Z) :
  lock (hw s) = Some holder ->
  nth_error (threads s) c = Some (Do LockGet k) ->
  cstep c s = None.
Proof.
  intros Hheld Hnext. unfold cstep. rewrite Hnext.
  cbn [enabled]. rewrite Hheld. reflexivity.
Qed.

(** C1: two cores that send on the shared channel are not kept apart by
    the lock.  Each core holds [pm_secure_lock] only while it polls the
    observation register; core 0 and core 1 pass the wait one after the
    other, both finding the channel clear, and then store their payloads
    into the one request buffer in turns, word by word, before either has
    written the trigger register.  Both calls return [PM_RET_SUCCESS]. *)
Theorem concurrent_sends_interleave :
  exists s',
    run_schedule alternating_schedule two_senders = Some s' /\
    threads s' = [Ret PM_RET_SUCCESS; Ret PM_RET_SUCCESS] /\
    firstn 6 (trace (hw s')) =
      [ (0%nat, EvAcquire);
        (0%nat, EvRead (observation_register pm_apu_0_proc) 0);
        (0%nat, EvRelease);
        (1%nat, EvAcquire);
        (1%nat, EvRead (observation_register pm_apu_1_proc) 0);
        (1%nat, EvRelease) ] /\
    writes_of (trace (hw s')) =
      [ (0%nat, request_word pm_apu_0_proc 0, 0xA0);
        (1%nat, request_word pm_apu_1_proc 0, 0xB0);
        (0%nat, request_word pm_apu_0_proc 1, 0xA1);
        (1%nat, request_word pm_apu_1_proc 1, 0xB1);
        (0%nat, request_word pm_apu_0_proc 2, 0xA2);
        (1%nat, request_word pm_apu_1_proc 2, 0xB2);
        (0%nat, request_word pm_apu_0_proc 3, 0xA3);
        (1%nat, request_word pm_apu_1_proc 3, 0xB3);
        (0%nat, request_word pm_apu_0_proc 4, 0xA4);
        (1%nat, request_word pm_apu_1_proc 4, 0xB4);
        (0%nat, trigger_register pm_apu_0_proc, IPI_PMU_PM_INT_MASK);
        (1%nat, trigger_register pm_apu_1_proc, IPI_PMU_PM_INT_MASK) ] /\
    request_word pm_apu_0_proc 0 = request_word pm_apu_1_proc 0 /\
    requests_apart (request_word pm_apu_0_proc 0)
                   (request_word pm_apu_0_proc PAYLOAD_ARG_CNT)
                   (trigger_register pm_apu_0_proc) None
                   (writes_of (trace (hw s'))) = false.
Proof.
  eexists. split; [vm_compute; reflexivity |].
  repeat split; vm_compute; reflexivity.
Qed.

(** ** Concrete runs on the ZynqMP values *)

Lemma pm_get_proc_in_and_out_of_bounds_witness :
  (0 <= 1 < 4 /\
   exists p, pm_get_proc 1 = Some p /\
             node_id p = nth (Z.to_nat 1)
                           [NODE_APU_0; NODE_APU_1; NODE_APU_2; NODE_APU_3] 0) /\
  (4 <= 4 /\ pm_get_proc 4 = None).
Proof.
  split.
  - assert (H : 0 <= 1 < 4) by lia. split; [exact H |].
    exact (proj2 (proj1 (pm_get_proc_in_and_out_of_bounds 1) H)).
  - assert (H : 4 <= 4) by lia. split; [exact H |].
    exact (proj1 (proj2 (pm_get_proc_in_and_out_of_bounds 4)) H).
Defined.

Lemma zynqmp_node_ids_distinct : NoDup (map node_id pm_procs_all).
Proof.
  cbn. repeat constructor; cbn; intuition discriminate.
Defined.

Lemma by_node_and_cpuid_inverse_witness :
  (In 3 (map node_id pm_procs_all) /\
   exists p, pm_get_proc_by_node 3 = Some p /\ node_id p = 3 /\
             0 <= pm_get_cpuid 3 < 4 /\
             pm_get_proc (pm_get_cpuid 3) = Some p) /\
  (~ In 7 (map node_id pm_procs_all) /\
   pm_get_proc_by_node 7 = None /\ pm_get_cpuid 7 = UNDEFINED_CPUID) /\
  (NoDup (map node_id pm_procs_all) /\
   pm_get_cpuid (node_id pm_apu_2_proc) = 2 /\
   pm_get_proc_by_node (node_id pm_apu_2_proc) = Some pm_apu_2_proc).
Proof.
  split; [| split].
  - assert (H : In 3 (map node_id pm_procs_all)) by (cbn; auto).
    split; [exact H |].
    exact (proj1 (by_node_and_cpuid_inverse 3) H).
  - assert (H : ~ In 7 (map node_id pm_procs_all))
      by (cbn; intuition discriminate).
    split; [exact H |].
    exact (proj1 (proj2 (by_node_and_cpuid_inverse 7)) H).
  - split; [exact zynqmp_node_ids_distinct |].
    apply (proj2 (proj2 (by_node_and_cpuid_inverse 0)) zynqmp_node_ids_distinct
             2 pm_apu_2_proc); [lia | reflexivity].
Defined.

Lemma pm_ipi_send_waits_writes_triggers_witness :
  length [1; 2; 3; 4; 5] = PAYLOAD_ARG_CNT /\
  run 0%nat (pm_ipi_send 1 pm_apu_0_proc [1; 2; 3; 4; 5]) (quiet_machine (fun _ => 0))
  = Some (PM_RET_SUCCESS,
          after_writes 0%nat (request_writes pm_apu_0_proc [1; 2; 3; 4; 5])
            (after_wait 0%nat pm_apu_0_proc (quiet_machine (fun _ => 0)) 0)).
Proof.
  assert (Hlen : length [1; 2; 3; 4; 5] = PAYLOAD_ARG_CNT) by reflexivity.
  split; [exact Hlen |].
  rewrite (proj1 (pm_ipi_send_waits_writes_triggers 0%nat 1 pm_apu_0_proc
                    [1; 2; 3; 4; 5] (quiet_machine (fun _ => 0)) Hlen)).
  reflexivity.
Defined.

Lemma pm_ipi_buff_read32_status_and_value_witness :
  run 0%nat (pm_ipi_wait 1 pm_apu_0_proc) (quiet_machine (fun _ => 0))
  = Some (PM_RET_SUCCESS, after_wait 0%nat pm_apu_0_proc (quiet_machine (fun _ => 0)) 0) /\
  exists status m',
    run 0%nat (pm_ipi_buff_read32 1 pm_apu_0_proc (Some 64)) (quiet_machine (fun _ => 0))
    = Some (status, m').
Proof.
  assert (H : run 0%nat (pm_ipi_wait 1 pm_apu_0_proc) (quiet_machine (fun _ => 0))
              = Some (PM_RET_SUCCESS,
                      after_wait 0%nat pm_apu_0_proc (quiet_machine (fun _ => 0)) 0))
    by reflexivity.
  split; [exact H |].
  destruct (proj2 (pm_ipi_buff_read32_status_and_value 0%nat 1 pm_apu_0_proc (Some 64)
                     (quiet_machine (fun _ => 0))) _ _ H)
    as (status & m' & Hrun & _).
  exists status, m'. exact Hrun.
Defined.

Lemma busy_machine_clears : pending 0%nat pm_apu_0_proc (busy_machine 3) 3 = 0.
Proof. reflexivity. Defined.

Lemma stuck_machine_pending (k : nat) : pending 0%nat pm_apu_0_proc stuck_machine k <> 0.
Proof.
  unfold pending. rewrite nth_poll_quiet by (intros n; reflexivity).
  vm_compute. discriminate.
Defined.

Lemma pm_ipi_wait_returns_iff_pmu_live_witness :
  ((exists k, pending 0%nat pm_apu_0_proc (busy_machine 3) k = 0) /\
   exists (fuel0 : nat) (m' : machine),
     forall fuel, (fuel0 <= fuel)%nat ->
       run 0%nat (pm_ipi_wait fuel pm_apu_0_proc) (busy_machine 3)
       = Some (PM_RET_SUCCESS, m')) /\
  ((forall k, pending 0%nat pm_apu_0_proc stuck_machine k <> 0) /\
   forall fuel, run 0%nat (pm_ipi_wait fuel pm_apu_0_proc) stuck_machine = None).
Proof.
  split.
  - assert (H : exists k, pending 0%nat pm_apu_0_proc (busy_machine 3) k = 0)
      by (exists 3%nat; exact busy_machine_clears).
    split; [exact H |].
    exact (proj1 (pm_ipi_wait_returns_iff_pmu_live 0%nat pm_apu_0_proc (busy_machine 3)) H).
  - split; [exact stuck_machine_pending |].
    exact (proj2 (pm_ipi_wait_returns_iff_pmu_live 0%nat pm_apu_0_proc stuck_machine)
             stuck_machine_pending).
Defined.

Lemma quiet_machine_leaves (r : Z -> Z) (a : Z) : pmu_leaves (quiet_machine r) a.
Proof. intros n. reflexivity. Defined.

Lemma pm_client_abort_suspend_idempotent_witness :
  pmu_leaves (quiet_machine (fun _ => 0xF)) APU_PWRCTL /\
  exists m1 m2,
    run 0%nat pm_client_abort_suspend (quiet_machine (fun _ => 0xF)) = Some (tt, m1) /\
    run 0%nat pm_client_abort_suspend m1 = Some (tt, m2) /\
    Z.land (reg32 m1 APU_PWRCTL) (pwrdn_mask primary_proc) = 0 /\
    Z.land (reg32 m2 APU_PWRCTL) (pwrdn_mask primary_proc) = 0 /\
    reg32 m2 APU_PWRCTL = reg32 m1 APU_PWRCTL.
Proof.
  split; [apply quiet_machine_leaves |].
  destruct (pm_client_abort_suspend_idempotent 0%nat (quiet_machine (fun _ => 0xF))
              (quiet_machine_leaves _ _))
    as (m1 & m2 & H1 & H2 & H3 & H4 & H5 & _).
  exists m1, m2. repeat split; assumption.
Defined.

Lemma pm_client_wakeup_unregistered_is_noop_witness :
  ~ In (node_id stray_proc) (map node_id pm_procs_all) /\
  pm_get_cpuid (node_id stray_proc) = UNDEFINED_CPUID /\
  run 0%nat (pm_client_wakeup stray_proc) (quiet_machine (fun _ => 0xF))
  = Some (tt, quiet_machine (fun _ => 0xF)).
Proof.
  assert (H : ~ In (node_id stray_proc) (map node_id pm_procs_all))
    by (cbn; intuition discriminate).
  pose proof (pm_client_wakeup_unregistered_is_noop 0%nat stray_proc
                (quiet_machine (fun _ => 0xF))) as [Hid Hrun].
  split; [exact H |]. split; [exact (Hid H) |]. exact (Hrun (Hid H)).
Defined.

Lemma power_transitions_touch_own_bit_witness :
  pmu_leaves (quiet_machine (fun _ => 0x5)) APU_PWRCTL /\
  APU_0_PWRCTL_CPUPWRDWNREQ_MASK = 2 ^ 0 /\
  APU_1_PWRCTL_CPUPWRDWNREQ_MASK = 2 ^ 1 /\
  4 <= UNDEFINED_CPUID /\
  exists m1 m2 m3,
    run 1%nat (pm_client_suspend pm_apu_1_proc) (quiet_machine (fun _ => 0x5))
    = Some (tt, m1) /\
    Z.testbit (reg32 m1 APU_PWRCTL) 1 = true /\
    run 0%nat (pm_client_wakeup pm_apu_1_proc) m1 = Some (tt, m2) /\
    Z.testbit (reg32 m2 APU_PWRCTL) 1 = false /\
    run 0%nat pm_client_abort_suspend m2 = Some (tt, m3) /\
    Z.testbit (reg32 m3 APU_PWRCTL) 1 = Z.testbit (reg32 m2 APU_PWRCTL) 1.
Proof.
  assert (H4 : 4 <= UNDEFINED_CPUID) by (vm_compute; discriminate).
  split; [apply quiet_machine_leaves |].
  split; [reflexivity |]. split; [reflexivity |]. split; [exact H4 |].
  destruct (power_transitions_touch_own_bit (plat := zynqmp) 0%nat 1%nat
              (quiet_machine (fun _ => 0x5))
              (quiet_machine_leaves _ _) eq_refl eq_refl H4)
    as (m1 & m2 & m3 & R1 & _ & B1 & _ & _ & R2 & _ & B2 & R3 & _ & _ & B3).
  exists m1, m2, m3. repeat split; try assumption.
  - exact (B1 1).
  - exact (B2 1).
Defined.

Lemma mailbox_accesses_follow_lock_release_witness :
  run 0%nat (pm_ipi_wait 1 pm_apu_0_proc) (quiet_machine (fun _ => 0))
  = Some (PM_RET_SUCCESS, after_wait 0%nat pm_apu_0_proc (quiet_machine (fun _ => 0)) 0) /\
  exists polls,
    trace (after_wait 0%nat pm_apu_0_proc (quiet_machine (fun _ => 0)) 0)
    = trace (quiet_machine (fun _ => 0))
      ++ [(0%nat, EvAcquire)] ++ polls ++ [(0%nat, EvRelease)] /\
    forallb (is_read_of (observation_register pm_apu_0_proc)) polls = true /\
    lock (after_wait 0%nat pm_apu_0_proc (quiet_machine (fun _ => 0)) 0) = None.
Proof.
  assert (H : run 0%nat (pm_ipi_wait 1 pm_apu_0_proc) (quiet_machine (fun _ => 0))
              = Some (PM_RET_SUCCESS,
                      after_wait 0%nat pm_apu_0_proc (quiet_machine (fun _ => 0)) 0))
    by reflexivity.
  split; [exact H |].
  exact (proj1 (mailbox_accesses_follow_lock_release 0%nat 1 pm_apu_0_proc
                  (quiet_machine (fun _ => 0))) _ _ H).
Defined.

(** * Further properties *)

(** ** The registry, both directions *)

Section RegistryMore.

Context {plat : Platform}.

Lemma registered_dec (nid : Z) :
  {In nid (map node_id pm_procs_all)} + {~ In nid (map node_id pm_procs_all)}.
Proof. apply in_dec. exact Z.eq_dec. Qed.

(** A registered node id: the two scans and the indexed lookup agree. *)
Lemma registered_lookup (nid : Z) :
  In nid (map node_id pm_procs_all) ->
  exists p, pm_get_proc_by_node nid = Some p /\
            0 <= pm_get_cpuid nid < 4 /\
            pm_get_proc (pm_get_cpuid nid) = Some p.
Proof.
  intros Hin.
  destruct (cpuid_from_found nid 0 pm_procs_all Hin) as (k & p & Hc & Hn & Hp & _).
  assert (Hk : (k < length pm_procs_all)%nat).
  { apply nth_error_Some. rewrite Hn. discriminate. }
  cbn [length pm_procs_all] in Hk.
  exists p. unfold pm_get_proc_by_node, pm_get_cpuid. rewrite Hc.
  repeat split; auto; try lia.
  rewrite pm_get_proc_nth by lia.
  replace (Z.to_nat (0 + Z.of_nat k)) with k by lia. exact Hn.
Qed.

(** X1: the index [pm_get_cpuid] gives leads [pm_get_proc] to the very
    descriptor [pm_get_proc_by_node] finds, for every node id, registered or
    not, as long as the sentinel is past the indices of the registry. *)
Theorem pm_get_proc_of_cpuid_is_by_node (nid : Z) :
  4 <= UNDEFINED_CPUID ->
  pm_get_proc (pm_get_cpuid nid) = pm_get_proc_by_node nid.
Proof.
  intros Hsentinel. destruct (registered_dec nid) as [Hin | Hout].
  - destruct (registered_lookup nid Hin) as (p & Hp & _ & Hidx).
    rewrite Hidx, Hp. reflexivity.
  - unfold pm_get_proc_by_node, pm_get_cpuid.
    rewrite proc_by_node_from_none, cpuid_from_none by exact Hout.
    unfold pm_get_proc, PM_ARRAY_SIZE. cbn [length pm_procs_all].
    destruct (Z.ltb_spec UNDEFINED_CPUID (Z.of_nat 4)); [lia | reflexivity].
Qed.

(** X2: what the results say about the node id.  [pm_get_cpuid] returns
    the sentinel or an index of the registry, nothing else;
    [pm_get_proc_by_node] returns [NULL] exactly for the node ids that are
    not registered; and, the sentinel being no index, [pm_get_cpuid] returns
    it exactly for those. *)
Theorem lookup_results_tell_registration (nid : Z) :
  (pm_get_cpuid nid = UNDEFINED_CPUID \/ 0 <= pm_get_cpuid nid < 4) /\
  (pm_get_proc_by_node nid = None <-> ~ In nid (map node_id pm_procs_all)) /\
  (~ (0 <= UNDEFINED_CPUID < 4) ->
     (pm_get_cpuid nid = UNDEFINED_CPUID <-> ~ In nid (map node_id pm_procs_all))).
Proof.
  destruct (registered_dec nid) as [Hin | Hout].
  - destruct (registered_lookup nid Hin) as (p & Hp & Hrange & _).
    split; [right; exact Hrange |]. split.
    + split; [intros H; rewrite Hp in H; discriminate | contradiction].
    + intros Hsentinel. split; [intros H; rewrite H in Hrange; contradiction | contradiction].
  - assert (Hid : pm_get_cpuid nid = UNDEFINED_CPUID)
      by (apply cpuid_from_none; exact Hout).
    assert (Hnone : pm_get_proc_by_node nid = None)
      by (apply proc_by_node_from_none; exact Hout).
    split; [left; exact Hid |]. split; [tauto | intros _; tauto].
Qed.

End RegistryMore.

(** ** What the mailbox calls read and leave alone *)

Lemma writes_of_app (tr1 tr2 : list (core * event)) :
  writes_of (tr1 ++ tr2) = writes_of tr1 ++ writes_of tr2.
Proof.
  induction tr1 as [| [c e] tr1 IH]; [reflexivity |].
  destruct e; cbn [app writes_of]; rewrite IH; reflexivity.
Qed.

Lemma writes_of_reads (a : Z) (polls : list (core * event)) :
  forallb (is_read_of a) polls = true -> writes_of polls = [].
Proof.
  induction polls as [| [c e] polls IH]; [reflexivity |].
  cbn [forallb]. intros H. apply andb_prop in H. destruct H as [He Hrest].
  destruct e; try discriminate He. cbn [writes_of]. apply IH. exact Hrest.
Qed.

Lemma writes_of_write_events (c : core) (ws : list (Z * Z)) :
  writes_of (map (write_event c) ws) = map (fun w => (c, fst w, wrap32 (snd w))) ws.
Proof.
  induction ws as [| w ws IH]; [reflexivity |].
  cbn [map write_event writes_of]. rewrite IH. reflexivity.
Qed.

Lemma after_polls_S (c : core) (a : Z) (m : machine) (k : nat) :
  after_polls c a m (S k) = after_polls c a (snd (bus_read c a m)) k.
Proof. reflexivity. Qed.

Lemma after_polls_frame (c : core) (a : Z) (k : nat) :
  forall m,
    clock (after_polls c a m k) = (clock m + k)%nat /\
    pmu (after_polls c a m k) = pmu m /\
    ram (after_polls c a m k) = ram m /\
    gic (after_polls c a m k) = gic m.
Proof.
  induction k as [| k IH]; intros m.
  - cbn [after_polls]. repeat split. lia.
  - rewrite after_polls_S. destruct (IH (snd (bus_read c a m))) as (Hc & Hp & Hr & Hg).
    rewrite Hc, Hp, Hr, Hg. cbn [bus_read snd clock pmu ram gic]. repeat split. lia.
Qed.

Lemma bus_read_quiet (c : core) (a a' : Z) (m : machine) :
  pmu_leaves m a' ->
  regs (snd (bus_read c a m)) a' = regs m a' /\
  pmu_leaves (snd (bus_read c a m)) a'.
Proof.
  intros Hq. cbn [bus_read snd regs]. split.
  - apply pmu_apply_quiet. exact Hq.
  - intros n. apply Hq.
Qed.

Lemma regs_after_polls_quiet (c : core) (a a' : Z) (k : nat) :
  forall m, pmu_leaves m a' -> regs (after_polls c a m k) a' = regs m a'.
Proof.
  induction k as [| k IH]; intros m Hq; [reflexivity |].
  rewrite after_polls_S. destruct (bus_read_quiet c a a' m Hq) as [Hr Hq'].
  rewrite IH by exact Hq'. exact Hr.
Qed.

Section MailboxMore.

Context {plat : Platform}.

Lemma after_wait_frame (c : core) (proc : pm_proc) (m : machine) (k : nat) :
  clock (after_wait c proc m k) = (clock m + S k)%nat /\
  pmu (after_wait c proc m k) = pmu m /\
  ram (after_wait c proc m k) = ram m /\
  gic (after_wait c proc m k) = gic m /\
  (forall a, pmu_leaves m a -> regs (after_wait c proc m k) a = regs m a).
Proof.
  unfold after_wait.
  destruct (after_polls_frame c (observation_register proc) (S k)
              (apply_effect c LockGet m)) as (Hc & Hp & Hr & Hg).
  pose proof (fun a => regs_after_polls_quiet c (observation_register proc) a (S k)
                         (apply_effect c LockGet m)) as Hregs.
  set (m0 := apply_effect c LockGet m) in *.
  set (m1 := after_polls c (observation_register proc) m0 (S k)) in *.
  cbn [apply_effect clock pmu ram gic regs].
  rewrite Hc, Hp, Hr, Hg. repeat split.
  intros a Hq. rewrite Hregs; [reflexivity | exact Hq].
Qed.

Lemma writes_of_after_wait (c : core) (proc : pm_proc) (m : machine) (k : nat) :
  writes_of (trace (after_wait c proc m k)) = writes_of (trace m).
Proof.
  destruct (trace_after_wait c proc m k) as (polls & Ht & Hall & _ & _).
  rewrite Ht, !writes_of_app, (writes_of_reads _ _ Hall).
  cbn [writes_of app]. apply app_nil_r.
Qed.

(** X3: [pm_ipi_wait] reads the observation register until the first
    read that shows the pending bit clear and returns there.  A call that
    returns has made [k + 1] reads, so at least one even when the channel is
    idle, every one but the last showing the bit set; these reads are all its
    bus accesses. *)
Theorem pm_ipi_wait_reads_until_first_clear (c : core) (fuel : nat)
    (proc : pm_proc) (m : machine) (r : Z) (m' : machine) :
  run c (pm_ipi_wait fuel proc) m = Some (r, m') ->
  exists (k : nat) (polls : list (core * event)),
    (k < fuel)%nat /\
    pending c proc m k = 0 /\
    (forall j, (j < k)%nat -> pending c proc m j <> 0) /\
    trace m' = trace m ++ [(c, EvAcquire)] ++ polls ++ [(c, EvRelease)] /\
    forallb (is_read_of (observation_register proc)) polls = true /\
    length polls = S k /\
    clock m' = (clock m + S k)%nat.
Proof.
  intros Hrun.
  destruct (pm_ipi_wait_returns c proc m fuel r m' Hrun)
    as (k & Hk & Hclear & Hbefore & _ & ->).
  destruct (trace_after_wait c proc m k) as (polls & Ht & Hall & Hlen & _).
  destruct (after_wait_frame c proc m k) as (Hclock & _).
  exists k, polls. repeat split; auto.
Qed.

(** The reads of [pm_ipi_buff_read32] after its wait. *)
Lemma read32_tail_frame (c : core) (proc : pm_proc) (value : option Z)
    (mw : machine) (r : Z) (m' : machine) :
  match value with
  | Some ptr =>
      let v := fst (bus_read c (response_word proc 1) mw) in
      let m1 := snd (bus_read c (response_word proc 1) mw) in
      Some (bus_read c (response_word proc 0) (apply_effect c (StoreOut ptr v) m1))
  | None => Some (bus_read c (response_word proc 0) mw)
  end = Some (r, m') ->
  writes_of (trace m') = writes_of (trace mw) /\
  gic m' = gic mw /\
  (forall a, pmu_leaves mw a -> regs m' a = regs mw a).
Proof.
  intros Hrun.
  destruct value as [ptr |]; cbv zeta in Hrun; injection Hrun as <- <-;
    cbn [bus_read fst snd apply_effect trace gic regs log]; unfold log;
    cbn [trace]; rewrite ?writes_of_app; cbn [writes_of]; rewrite ?app_nil_r;
    (split; [reflexivity |]); (split; [reflexivity |]); intros a Ha.
  - unfold pmu_apply at 1. cbn [pmu clock regs]. rewrite (Ha _).
    apply pmu_apply_quiet. exact Ha.
  - apply pmu_apply_quiet. exact Ha.
Qed.

(** X4: waiting and reading the response change nothing of the address
    space.  A [pm_ipi_wait] or [pm_ipi_buff_read32] that returns has stored
    to no register, has left the CPU interfaces as they were, and every
    register the PMU does not write holds what it held; the wait has left
    the memory of the callers alone as well. *)
Theorem mailbox_reads_store_to_no_register (c : core) (fuel : nat)
    (proc : pm_proc) (m : machine) :
  (forall r m',
     run c (pm_ipi_wait fuel proc) m = Some (r, m') ->
     writes_of (trace m') = writes_of (trace m) /\
     ram m' = ram m /\ gic m' = gic m /\
     (forall a, pmu_leaves m a -> regs m' a = regs m a)) /\
  (forall value r m',
     run c (pm_ipi_buff_read32 fuel proc value) m = Some (r, m') ->
     writes_of (trace m') = writes_of (trace m) /\
     gic m' = gic m /\
     (forall a, pmu_leaves m a -> regs m' a = regs m a)).
Proof.
  split.
  - intros r m' Hrun.
    destruct (pm_ipi_wait_returns c proc m fuel r m' Hrun) as (k & _ & _ & _ & _ & ->).
    destruct (after_wait_frame c proc m k) as (_ & _ & Hram & Hgic & Hregs).
    rewrite writes_of_after_wait. auto.
  - intros value r m' Hrun. rewrite run_pm_ipi_buff_read32 in Hrun.
    destruct (run c (pm_ipi_wait fuel proc) m) as [[r0 mw] |] eqn:Hwait; [| discriminate].
    destruct (pm_ipi_wait_returns c proc m fuel r0 mw Hwait) as (k & _ & _ & _ & _ & ->).
    destruct (after_wait_frame c proc m k) as (_ & Hpmu & _ & Hgic & Hregs).
    destruct (read32_tail_frame c proc value _ r m' Hrun) as (Hw' & Hgic' & Hregs').
    rewrite Hw', Hgic', writes_of_after_wait. repeat split; auto.
    intros a Ha. rewrite Hregs'; [apply Hregs; exact Ha |].
    intros n. rewrite Hpmu. apply Ha.
Qed.

End MailboxMore.

(** ** The response of the PMU *)

Lemma bus_read_done (c : core) (a a' : Z) (m : machine) :
  pmu_done m a' ->
  regs (snd (bus_read c a m)) a' = regs m a' /\
  pmu_done (snd (bus_read c a m)) a'.
Proof.
  intros Hd. cbn [bus_read snd regs]. split.
  - unfold pmu_apply. rewrite (Hd (clock m)) by lia. reflexivity.
  - intros n Hn. cbn [clock pmu] in *. apply Hd. lia.
Qed.

Lemma bus_read_value_done (c : core) (a : Z) (m : machine) :
  pmu_done m a -> fst (bus_read c a m) = wrap32 (regs m a).
Proof.
  intros Hd. cbn [bus_read fst]. unfold pmu_apply.
  rewrite (Hd (clock m)) by lia. reflexivity.
Qed.

Lemma regs_after_polls_done (c : core) (a a' : Z) (k : nat) :
  forall m,
    pmu_done m a' ->
    regs (after_polls c a m k) a' = regs m a' /\ pmu_done (after_polls c a m k) a'.
Proof.
  induction k as [| k IH]; intros m Hd; [split; [reflexivity | exact Hd] |].
  rewrite after_polls_S. destruct (bus_read_done c a a' m Hd) as [Hr Hd'].
  destruct (IH _ Hd') as [Hr' Hd'']. rewrite Hr', Hr. split; [reflexivity | exact Hd''].
Qed.

(** A store the PMU makes at bus access [t0] is in the register once the
    cores have made that access, and stays if the PMU makes no later one. *)
Lemma stored_after_polls (c : core) (a a' : Z) (t0 : nat) (v : Z) (k : nat) :
  forall m,
    (clock m <= t0 < clock m + k)%nat ->
    pmu m t0 a' = Some v ->
    (forall n, (t0 < n)%nat -> pmu m n a' = None) ->
    regs (after_polls c a m k) a' = v /\ pmu_done (after_polls c a m k) a'.
Proof.
  induction k as [| k IH]; intros m Ht Hstore Hlater; [lia |].
  rewrite after_polls_S.
  destruct (Nat.eq_dec (clock m) t0) as [E | E].
  - assert (Hd : pmu_done (snd (bus_read c a m)) a').
    { intros n Hn. cbn [bus_read snd clock pmu] in *. apply Hlater. lia. }
    destruct (regs_after_polls_done c a a' k _ Hd) as [Hr Hd'].
    rewrite Hr. split; [| exact Hd'].
    cbn [bus_read snd regs]. unfold pmu_apply. rewrite E, Hstore. reflexivity.
  - apply IH; cbn [bus_read snd clock pmu]; auto. lia.
Qed.

Section ResponseFacts.

Context {plat : Platform}.

(** X5: the caller gets the response of the PMU.  If the PMU writes the
    two response words no later than any poll sees the pending bit clear,
    and leaves them alone afterwards, a [pm_ipi_buff_read32] that returns
    returns the status word the PMU wrote and has stored the value word the
    PMU wrote through the pointer. *)
Theorem pm_ipi_buff_read32_gets_pmu_response (c : core) (fuel : nat)
    (proc : pm_proc) (ptr : Z) (m : machine) (t0 : nat) (s v : Z)
    (r : Z) (m' : machine) :
  (clock m <= t0)%nat ->
  pmu m t0 (response_word proc 0) = Some s ->
  pmu m t0 (response_word proc 1) = Some v ->
  (forall n, (t0 < n)%nat ->
     pmu m n (response_word proc 0) = None /\
     pmu m n (response_word proc 1) = None) ->
  (forall j, (clock m + j <= t0)%nat -> pending c proc m j <> 0) ->
  run c (pm_ipi_buff_read32 fuel proc (Some ptr)) m = Some (r, m') ->
  r = wrap32 s /\ ram m' ptr = wrap32 v.
Proof.
  intros Hclock Hs Hv Hlater Hpending Hrun.
  rewrite run_pm_ipi_buff_read32 in Hrun.
  destruct (run c (pm_ipi_wait fuel proc) m) as [[r0 mw] |] eqn:Hwait; [| discriminate].
  destruct (pm_ipi_wait_returns c proc m fuel r0 mw Hwait)
    as (k & _ & Hclear & _ & _ & Hmw).
  assert (Hk : (t0 < clock m + S k)%nat).
  { destruct (Nat.le_gt_cases (clock m + k) t0) as [Hle | Hgt]; [| lia].
    exfalso. exact (Hpending k Hle Hclear). }
  assert (Hword : forall a w,
             pmu m t0 a = Some w ->
             (forall n, (t0 < n)%nat -> pmu m n a = None) ->
             regs mw a = w /\ pmu_done mw a).
  { intros a w Hstore Hl. subst mw. unfold after_wait.
    destruct (stored_after_polls c (observation_register proc) a t0 w (S k)
                (apply_effect c LockGet m)) as [Hr Hd].
    - cbn [apply_effect clock]. lia.
    - exact Hstore.
    - exact Hl.
    - split; [exact Hr | exact Hd]. }
  destruct (Hword _ _ Hs (fun n Hn => proj1 (Hlater n Hn))) as [Hr0 Hd0].
  destruct (Hword _ _ Hv (fun n Hn => proj2 (Hlater n Hn))) as [Hr1 Hd1].
  clear Hword Hmw Hwait.
  cbv zeta in Hrun. injection Hrun as <- <-.
  destruct (bus_read_done c (response_word proc 1) (response_word proc 0) mw Hd0)
    as [Hr0' Hd0'].
  split.
  - rewrite <- Hr0, <- Hr0'.
    apply (bus_read_value_done c (response_word proc 0)
             (apply_effect c (StoreOut ptr (fst (bus_read c (response_word proc 1) mw)))
                (snd (bus_read c (response_word proc 1) mw)))).
    exact Hd0'.
  - cbn [bus_read snd apply_effect ram]. rewrite upd_same, wrap32_idem.
    unfold pmu_apply. rewrite (Hd1 (clock mw) (Nat.le_refl _)), Hr1. reflexivity.
Qed.

End ResponseFacts.

(** ** The request in the buffer *)

Lemma after_writes_pmu (c : core) (ws : list (Z * Z)) :
  forall m, pmu (after_writes c ws m) = pmu m.
Proof.
  induction ws as [| w ws IH]; intros m; [reflexivity |].
  rewrite after_writes_cons, IH. reflexivity.
Qed.

Lemma regs_after_writes_other (c : core) (a : Z) (ws : list (Z * Z)) :
  forall m,
    ~ In a (map fst ws) -> pmu_leaves m a ->
    regs (after_writes c ws m) a = regs m a.
Proof.
  induction ws as [| w ws IH]; intros m Hout Hq; [reflexivity |].
  rewrite after_writes_cons, IH.
  - cbn [bus_write regs]. rewrite upd_other, pmu_apply_quiet; auto.
    intros E. apply Hout. left. symmetry. exact E.
  - intros Hin. apply Hout. right. exact Hin.
  - intros n. apply Hq.
Qed.

(** A list of stores to pairwise distinct addresses leaves each word
    where it was sent, the PMU not writing there. *)
Lemma regs_after_writes_in (c : core) (a v : Z) (ws : list (Z * Z)) :
  forall m,
    NoDup (map fst ws) -> In (a, v) ws -> pmu_leaves m a ->
    regs (after_writes c ws m) a = wrap32 v.
Proof.
  induction ws as [| w ws IH]; intros m Hnd Hin Hq; [contradiction |].
  cbn [map] in Hnd. inversion Hnd as [| x l Hnotin Hnd']; subst.
  rewrite after_writes_cons. destruct Hin as [-> | Hin].
  - cbn [fst snd] in *. rewrite regs_after_writes_other.
    + cbn [bus_write regs]. apply upd_same.
    + exact Hnotin.
    + intros n. apply Hq.
  - apply IH; auto.
Qed.

Section RequestFacts.

Context {plat : Platform}.

Lemma request_writes_word (proc : pm_proc) (payload : list Z) (i : nat) :
  (i < length payload)%nat ->
  In (request_word proc i, nth i payload 0) (request_writes proc payload).
Proof.
  intros Hi. unfold request_writes. apply in_or_app. left.
  rewrite (combine_indices 0). apply in_map_iff.
  exists i. split; [reflexivity |]. apply in_seq. lia.
Qed.

Lemma request_writes_trigger (proc : pm_proc) (payload : list Z) :
  In (trigger_register proc, IPI_PMU_PM_INT_MASK) (request_writes proc payload).
Proof. unfold request_writes. apply in_or_app. right. left. reflexivity. Qed.

(** X6: the request the PMU finds.  If the words of the request region
    and the trigger register lie at pairwise distinct addresses that the PMU
    does not write, then after a [pm_ipi_send] that returns word [i] of the
    request region holds word [i] of the payload, for every
    [i < PAYLOAD_ARG_CNT], and the trigger register holds the trigger bit. *)
Theorem pm_ipi_send_leaves_payload_in_buffer (c : core) (fuel : nat)
    (proc : pm_proc) (payload : list Z) (m : machine) (r : Z) (m' : machine) :
  length payload = PAYLOAD_ARG_CNT ->
  NoDup (map fst (request_writes proc payload)) ->
  (forall a, In a (map fst (request_writes proc payload)) -> pmu_leaves m a) ->
  run c (pm_ipi_send fuel proc payload) m = Some (r, m') ->
  (forall i, (i < PAYLOAD_ARG_CNT)%nat ->
     regs m' (request_word proc i) = wrap32 (nth i payload 0)) /\
  regs m' (trigger_register proc) = wrap32 IPI_PMU_PM_INT_MASK.
Proof.
  intros Hlen Hnd Hq Hrun. rewrite run_pm_ipi_send in Hrun by exact Hlen.
  destruct (run c (pm_ipi_wait fuel proc) m) as [[r0 mw] |] eqn:Hwait; [| discriminate].
  injection Hrun as <- <-.
  destruct (pm_ipi_wait_returns c proc m fuel r0 mw Hwait) as (k & _ & _ & _ & _ & ->).
  destruct (after_wait_frame c proc m k) as (_ & Hpmu & _).
  assert (Hq' : forall a v, In (a, v) (request_writes proc payload) ->
                            pmu_leaves (after_wait c proc m k) a).
  { intros a v Hin n. rewrite Hpmu. apply Hq.
    apply in_map_iff. exists (a, v). auto. }
  split.
  - intros i Hi. apply regs_after_writes_in; auto.
    + apply request_writes_word. lia.
    + apply (Hq' _ (nth i payload 0)). apply request_writes_word. lia.
  - apply regs_after_writes_in; auto.
    + apply request_writes_trigger.
    + apply (Hq' _ IPI_PMU_PM_INT_MASK). apply request_writes_trigger.
Qed.

End RequestFacts.

(** ** Power-down requests of any core *)

Lemma land_lor_not32 (v k : Z) :
  Z.land (wrap32 (Z.lor (wrap32 v) k)) (not32 k) = Z.land (wrap32 v) (not32 k).
Proof.
  apply Z.bits_inj'. intros b Hb.
  repeat (rewrite wrap32_testbit || rewrite Z.land_spec || rewrite Z.lor_spec
          || rewrite testbit_not32 by exact Hb).
  btauto.
Qed.

Section PowerMore.

Context {plat : Platform}.

(** X7: a power-down request changes the bits of the mask of its
    descriptor and no other, whatever the descriptor.  [pm_client_suspend]
    leaves every bit of the 32-bit register set that was set or is in the
    mask; [pm_client_wakeup], for a descriptor whose node id [pm_get_cpuid]
    finds, leaves every bit set that was set and is not in the mask. *)
Theorem power_requests_change_mask_bits_only (c : core) (proc : pm_proc)
    (m : machine) :
  pmu_leaves m APU_PWRCTL ->
  (exists m1,
     run c (pm_client_suspend proc) m = Some (tt, m1) /\
     forall b, 0 <= b < 32 ->
       Z.testbit (reg32 m1 APU_PWRCTL) b =
       Z.testbit (reg32 m APU_PWRCTL) b || Z.testbit (pwrdn_mask proc) b) /\
  (pm_get_cpuid (node_id proc) <> UNDEFINED_CPUID ->
   exists m2,
     run c (pm_client_wakeup proc) m = Some (tt, m2) /\
     forall b, 0 <= b < 32 ->
       Z.testbit (reg32 m2 APU_PWRCTL) b =
       Z.testbit (reg32 m APU_PWRCTL) b && negb (Z.testbit (pwrdn_mask proc) b)).
Proof.
  intros Hq. split.
  - destruct (run_pm_client_suspend c proc m Hq) as (m1 & Hrun & Hreg & _).
    exists m1. split; [exact Hrun |]. intros b [Hlo Hhi].
    rewrite Hreg, wrap32_testbit, Z.lor_spec.
    destruct (Z.ltb_spec b 32); [reflexivity | lia].
  - intros Hfound.
    destruct (run_pm_client_wakeup_found c proc m Hfound Hq) as (m2 & Hrun & Hreg & _).
    exists m2. split; [exact Hrun |]. intros b [Hlo Hhi].
    rewrite Hreg, Z.land_spec, testbit_not32 by exact Hlo.
    destruct (Z.ltb_spec b 32); [reflexivity | lia].
Qed.

(** X8: a wake-up undoes a suspend.  After [pm_client_suspend] for a
    registered descriptor and [pm_client_wakeup] for the same the register
    is the one before with the bits of the mask clear, hence the one before
    if they were clear; the CPU interface that the suspend switched off is
    still off. *)
Theorem wakeup_undoes_suspend (c0 c1 : core) (proc : pm_proc) (m : machine) :
  pmu_leaves m APU_PWRCTL ->
  pm_get_cpuid (node_id proc) <> UNDEFINED_CPUID ->
  exists m1 m2,
    run c1 (pm_client_suspend proc) m = Some (tt, m1) /\
    run c0 (pm_client_wakeup proc) m1 = Some (tt, m2) /\
    reg32 m2 APU_PWRCTL = Z.land (reg32 m APU_PWRCTL) (not32 (pwrdn_mask proc)) /\
    (Z.land (reg32 m APU_PWRCTL) (pwrdn_mask proc) = 0 ->
       reg32 m2 APU_PWRCTL = reg32 m APU_PWRCTL) /\
    gic m2 c1 = false.
Proof.
  intros Hq Hfound.
  destruct (run_pm_client_suspend c1 proc m Hq) as (m1 & Hrun1 & Hreg1 & Hoff & _ & Hpmu1).
  assert (Hq1 : pmu_leaves m1 APU_PWRCTL) by (intros n; rewrite Hpmu1; apply Hq).
  destruct (run_pm_client_wakeup_found c0 proc m1 Hfound Hq1)
    as (m2 & Hrun2 & Hreg2 & Hgic2 & _).
  assert (Hreg : reg32 m2 APU_PWRCTL =
                 Z.land (reg32 m APU_PWRCTL) (not32 (pwrdn_mask proc))).
  { rewrite Hreg2, Hreg1. apply land_lor_not32. }
  exists m1, m2. repeat split; auto.
  - intros Hclear. rewrite Hreg. apply land_not32_noop. exact Hclear.
  - rewrite Hgic2. exact Hoff.
Qed.

(** X9: aborting undoes a suspend of the primary core.  After
    [pm_client_suspend] for the primary descriptor and
    [pm_client_abort_suspend] on the same core the register is the one
    before with the bit of the primary core clear, hence the one before if it
    was clear, the CPU interface of the core is active again and those of the
    other cores are as they were. *)
Theorem abort_undoes_suspend_of_primary (c : core) (m : machine) :
  pmu_leaves m APU_PWRCTL ->
  exists m1 m2,
    run c (pm_client_suspend primary_proc) m = Some (tt, m1) /\
    run c pm_client_abort_suspend m1 = Some (tt, m2) /\
    gic m1 c = false /\
    reg32 m2 APU_PWRCTL =
      Z.land (reg32 m APU_PWRCTL) (not32 (pwrdn_mask primary_proc)) /\
    (Z.land (reg32 m APU_PWRCTL) (pwrdn_mask primary_proc) = 0 ->
       reg32 m2 APU_PWRCTL = reg32 m APU_PWRCTL) /\
    gic m2 c = true /\
    (forall c', c' <> c -> gic m2 c' = gic m c').
Proof.
  intros Hq.
  destruct (run_pm_client_suspend c primary_proc m Hq)
    as (m1 & Hrun1 & Hreg1 & Hoff & Hothers1 & Hpmu1).
  assert (Hq1 : pmu_leaves m1 APU_PWRCTL) by (intros n; rewrite Hpmu1; apply Hq).
  destruct (run_pm_client_abort_suspend c m1 Hq1)
    as (m2 & Hrun2 & Hreg2 & _ & Hon & Hothers2 & _).
  assert (Hreg : reg32 m2 APU_PWRCTL =
                 Z.land (reg32 m APU_PWRCTL) (not32 (pwrdn_mask primary_proc))).
  { rewrite Hreg2, Hreg1. apply land_lor_not32. }
  exists m1, m2. repeat split; auto.
  - intros Hclear. rewrite Hreg. apply land_not32_noop. exact Hclear.
  - intros c' Hc'. rewrite Hothers2, Hothers1; auto.
Qed.

End PowerMore.

(** ** Several cores and the power-control register *)

Section PowerRace.

Context {plat : Platform}.

(** X10: two suspends at once can lose one request.  The register is
    read and written back in two bus accesses and no lock is taken; when two
    cores run [pm_client_suspend] and both read the register before either
    writes it, both calls complete, both CPU interfaces are off, and the
    register holds the old value with the mask of the second writer only: a
    bit that only the mask of the first writer has is not set. *)
Theorem concurrent_suspends_lose_a_request (r : Z -> Z) (p0 p1 : pm_proc) :
  exists s',
    run_schedule racing_schedule (two_suspenders r p0 p1) = Some s' /\
    threads s' = [Ret 0; Ret 0] /\
    gic (hw s') 0%nat = false /\
    gic (hw s') 1%nat = false /\
    reg32 (hw s') APU_PWRCTL =
      wrap32 (Z.lor (wrap32 (r APU_PWRCTL)) (pwrdn_mask p1)) /\
    (forall b, 0 <= b < 32 ->
       Z.testbit (r APU_PWRCTL) b = false ->
       Z.testbit (pwrdn_mask p1) b = false ->
       Z.testbit (reg32 (hw s') APU_PWRCTL) b = false).
Proof.
  eexists. split; [reflexivity |].
  assert (Hreg : reg32 (bus_write 1%nat APU_PWRCTL
                          (Z.lor (wrap32 (r APU_PWRCTL)) (pwrdn_mask p1))
                          (bus_write 0%nat APU_PWRCTL
                             (Z.lor (wrap32 (r APU_PWRCTL)) (pwrdn_mask p0))
                             (snd (bus_read 1%nat APU_PWRCTL
                               (snd (bus_read 0%nat APU_PWRCTL
                                 (apply_effect 1%nat GicDeactivate
                                   (apply_effect 0%nat GicDeactivate
                                      (quiet_machine r))))))))) APU_PWRCTL
                = wrap32 (Z.lor (wrap32 (r APU_PWRCTL)) (pwrdn_mask p1))).
  { unfold reg32. cbn [bus_write regs]. rewrite upd_same. apply wrap32_idem. }
  split; [reflexivity |]. split; [reflexivity |]. split; [reflexivity |].
  split; [exact Hreg |].
  intros b [Hlo Hhi] Hold Hmask.
  etransitivity; [apply f_equal2; [exact Hreg | reflexivity] |].
  rewrite wrap32_testbit, Z.lor_spec, wrap32_testbit, Hold, Hmask.
  btauto.
Qed.

End PowerRace.

(** ** Several cores and the lock *)

Lemma nth_error_set_nth_same {A : Type} (n : nat) (x y : A) (l : list A) :
  nth_error l n = Some y -> nth_error (set_nth n x l) n = Some x.
Proof.
  revert n. induction l as [| h t IH]; intros [| n] H; try discriminate.
  - reflexivity.
  - cbn [set_nth nth_error] in *. apply IH. exact H.
Qed.

Lemma nth_error_set_nth_other {A : Type} (n n' : nat) (x : A) (l : list A) :
  n <> n' -> nth_error (set_nth n x l) n' = nth_error l n'.
Proof.
  revert n n'. induction l as [| h t IH]; intros [| n] [| n'] H;
    try reflexivity; try contradiction.
  cbn [set_nth nth_error]. apply IH. congruence.
Qed.

Lemma cstep_load (c : core) (s : system) (a : Z) (k : Z -> prog Z) :
  nth_error (threads s) c = Some (Load a k) ->
  cstep c s = Some {| hw := snd (bus_read c a (hw s));
                      threads := set_nth c (k (fst (bus_read c a (hw s)))) (threads s) |}.
Proof. intros H. unfold cstep. rewrite H. reflexivity. Qed.

Lemma cstep_do (c : core) (s : system) (e : effect) (k : prog Z) :
  nth_error (threads s) c = Some (Do e k) ->
  enabled e (hw s) = true ->
  cstep c s = Some {| hw := apply_effect c e (hw s);
                      threads := set_nth c k (threads s) |}.
Proof. intros H He. unfold cstep. rewrite H, He. reflexivity. Qed.

Section LockFacts.

Context {plat : Platform}.

Lemma poll_unfold (fuel : nat) (a status : Z) :
  status <> 0 ->
  poll (S fuel) a status = Load a (fun v => poll fuel a (Z.land v IPI_PMU_PM_INT_MASK)).
Proof.
  intros H. cbn [poll]. destruct (Z.eqb_spec status 0); [contradiction | reflexivity].
Qed.

(** A core that polls a register which stays pending keeps polling, and
    the cores that ask for the lock keep waiting. *)
Lemma stuck_poll_runs (a : Z) (g : unit -> prog Z) (f : Z -> prog Z)
    (sched : list core) :
  forall (s s' : system) (fuel : nat) (status : Z),
    status <> 0 ->
    nth_error (threads s) 0 = Some (bind (bind (poll fuel a status) g) f) ->
    lock (hw s) = Some 0%nat ->
    pmu_leaves (hw s) a ->
    Z.land (reg32 (hw s) a) IPI_PMU_PM_INT_MASK <> 0 ->
    (forall c p, c <> 0%nat -> nth_error (threads s) c = Some p ->
                 exists k, p = Do LockGet k) ->
    run_schedule sched s = Some s' ->
    lock (hw s') = Some 0%nat /\
    Forall (eq 0%nat) sched /\
    writes_of (trace (hw s')) = writes_of (trace (hw s)) /\
    (forall c, c <> 0%nat -> nth_error (threads s') c = nth_error (threads s) c).
Proof.
  induction sched as [| c rest IH]; intros s s' fuel status Hst Hthread Hlock Hq Hpend Hothers Hrun.
  - cbn [run_schedule] in Hrun. injection Hrun as <-. repeat split; auto.
  - cbn [run_schedule] in Hrun.
    destruct (Nat.eq_dec c 0) as [-> | Hc].
    + destruct fuel as [| fuel].
      * rewrite poll_out_of_fuel in Hthread by exact Hst.
        unfold cstep in Hrun. rewrite Hthread in Hrun. discriminate.
      * rewrite poll_unfold in Hthread by exact Hst. cbn [bind] in Hthread.
        rewrite (cstep_load _ _ _ _ Hthread) in Hrun. cbv iota beta in Hrun.
        destruct (bus_read_quiet 0%nat a a (hw s) Hq) as [Hregs Hq1].
        assert (Hval : fst (bus_read 0%nat a (hw s)) = reg32 (hw s) a).
        { cbn [bus_read fst]. rewrite pmu_apply_quiet by exact Hq. reflexivity. }
        match type of Hrun with
        | run_schedule _ ?s1 = _ =>
            destruct (IH s1 s' fuel
                        (Z.land (fst (bus_read 0%nat a (hw s))) IPI_PMU_PM_INT_MASK)
                        ltac:(rewrite Hval; exact Hpend)
                        (nth_error_set_nth_same 0 _ _ _ Hthread)
                        Hlock Hq1
                        ltac:(unfold reg32; cbn [hw]; rewrite Hregs; exact Hpend)
                        ltac:(intros c p Hc; cbn [threads];
                              rewrite nth_error_set_nth_other by auto;
                              apply Hothers; exact Hc)
                        Hrun)
              as (Hl & Hall & Hw & Hth)
        end.
        cbn [hw threads] in *. repeat split; auto.
        -- rewrite Hw. cbn [bus_read snd trace]. unfold log.
           rewrite writes_of_app. cbn [writes_of]. apply app_nil_r.
        -- intros c Hc. rewrite Hth by exact Hc.
           apply nth_error_set_nth_other. auto.
    + exfalso. unfold cstep in Hrun.
      destruct (nth_error (threads s) c) as [p |] eqn:Hp; [| discriminate].
      destruct (Hothers c p Hc Hp) as [k ->].
      cbn [enabled] in Hrun. rewrite Hlock in Hrun. discriminate.
Qed.

(** X11: a channel that never clears stops every core.  [pm_ipi_wait]
    holds the lock while it polls: once a core has entered a mailbox call on
    a channel whose pending bit stays set, it never leaves the loop, never
    releases the lock and never reaches a store, and every other core that
    calls a mailbox function waits in [bakery_lock_get]: whatever the
    schedule, only the polling core ever moves. *)
Theorem stuck_channel_blocks_every_core (fuel : nat) (proc : pm_proc)
    (f : Z -> prog Z) (s0 s' : system) (sched : list core) :
  nth_error (threads s0) 0 = Some (bind (pm_ipi_wait fuel proc) f) ->
  (forall c p, c <> 0%nat -> nth_error (threads s0) c = Some p ->
               exists k, p = Do LockGet k) ->
  lock (hw s0) = None ->
  pmu_leaves (hw s0) (observation_register proc) ->
  Z.land (reg32 (hw s0) (observation_register proc)) IPI_PMU_PM_INT_MASK <> 0 ->
  run_schedule (0%nat :: sched) s0 = Some s' ->
  lock (hw s') = Some 0%nat /\
  Forall (eq 0%nat) sched /\
  writes_of (trace (hw s')) = writes_of (trace (hw s0)) /\
  (forall c, c <> 0%nat -> nth_error (threads s') c = nth_error (threads s0) c).
Proof.
  intros Hthread Hothers Hfree Hq Hpend Hrun.
  assert (Hthread' : nth_error (threads s0) 0 =
            Some (Do LockGet
                    (bind (bind (poll fuel (observation_register proc) 1)
                                (fun _ => bakery_lock_release ;; Ret PM_RET_SUCCESS)) f)))
    by exact Hthread.
  cbn [run_schedule] in Hrun.
  rewrite (cstep_do _ _ _ _ Hthread') in Hrun by (cbn [enabled]; rewrite Hfree; reflexivity).
  cbv iota beta in Hrun.
  match type of Hrun with
  | run_schedule _ ?s1 = _ =>
      destruct (stuck_poll_runs (observation_register proc) _ f sched s1 s' fuel 1
                  ltac:(discriminate)
                  (nth_error_set_nth_same 0 _ _ _ Hthread')
                  eq_refl Hq Hpend
                  ltac:(intros c p Hc; cbn [threads];
                        rewrite nth_error_set_nth_other by auto;
                        apply Hothers; exact Hc)
                  Hrun)
        as (Hl & Hall & Hw & Hth)
  end.
  cbn [hw threads] in *. repeat split; auto.
  - rewrite Hw. cbn [apply_effect trace]. unfold log.
    rewrite writes_of_app. cbn [writes_of]. apply app_nil_r.
  - intros c Hc. rewrite Hth by exact Hc. apply nth_error_set_nth_other. auto.
Qed.

End LockFacts.

(** ** The lock under every schedule *)

Lemma brackets_bind {A B : Type} (h h1 h2 : bool) (p : prog A) (f : A -> prog B) :
  brackets h p h1 ->
  (forall a, brackets h1 (f a) h2) ->
  brackets h (bind p f) h2.
Proof.
  intros Hp Hf. induction Hp; cbn [bind]; try (constructor; auto).
  apply Hf.
Qed.

Lemma brackets_ret_inv {A : Type} (h h' : bool) (a : A) :
  brackets h (Ret a) h' -> h = h'.
Proof. intros H. inversion H. reflexivity. Qed.

Lemma brackets_load_inv {A : Type} (h h' : bool) (addr : Z) (k : Z -> prog A) :
  brackets h (Load addr k) h' -> forall v, brackets h (k v) h'.
Proof.
  intros H. inversion H as [| | h0 h0' a0 k0 Hk | | | | | |]; subst. exact Hk.
Qed.

Lemma brackets_do_inv {A : Type} (h h' : bool) (e : effect) (k : prog A) :
  brackets h (Do e k) h' ->
  match e with
  | LockGet => h = false /\ brackets true k h'
  | LockRelease => h = true /\ brackets false k h'
  | _ => brackets h k h'
  end.
Proof. intros H. inversion H; subst; auto. Qed.

Lemma holder_after_app (h : option core) (tr1 tr2 : list (core * event)) :
  holder_after h (tr1 ++ tr2) =
  match holder_after h tr1 with
  | Some h1 => holder_after h1 tr2
  | None => None
  end.
Proof.
  revert h. induction tr1 as [| [c e] tr1 IH]; intros h; [reflexivity |].
  destruct e; cbn [app holder_after]; try apply IH.
  - destruct h; [reflexivity | apply IH].
  - destruct h as [c' |]; [| reflexivity].
    destruct (Nat.eqb c c'); [apply IH | reflexivity].
Qed.

Lemma nth_error_set_nth_inv {A : Type} (n n' : nat) (x y z : A) (l : list A) :
  nth_error l n = Some y ->
  nth_error (set_nth n x l) n' = Some z ->
  (n' = n /\ z = x) \/ (n' <> n /\ nth_error l n' = Some z).
Proof.
  intros Hn Hz. destruct (Nat.eq_dec n' n) as [-> | Hne].
  - left. rewrite (nth_error_set_nth_same n x y l Hn) in Hz.
    injection Hz as <-. auto.
  - right. rewrite nth_error_set_nth_other in Hz by auto. auto.
Qed.

Section Discipline.

Context {plat : Platform}.

Lemma brackets_poll (h : bool) (fuel : nat) (a : Z) :
  forall status, brackets h (poll fuel a status) h.
Proof.
  induction fuel as [| fuel IH]; intros status; cbn [poll];
    destruct (status =? 0); try (constructor; fail).
  cbn [pm_read bind]. constructor. intros v. apply IH.
Qed.

Lemma brackets_write_payload (h : bool) (bbase : Z) (payload : list Z) (n : nat) :
  forall i off, brackets h (write_payload n i bbase off payload) h.
Proof.
  induction n as [| n IH]; intros i off; cbn [write_payload pm_write bind];
    constructor. apply IH.
Qed.

Lemma brackets_pm_ipi_wait (fuel : nat) (proc : pm_proc) :
  brackets false (pm_ipi_wait fuel proc) false.
Proof.
  unfold pm_ipi_wait, bakery_lock_get, bakery_lock_release. cbn [bind].
  constructor. eapply brackets_bind; [apply brackets_poll |].
  intros _. cbn [bind]. repeat constructor.
Qed.

Lemma brackets_client_call (p : prog Z) :
  client_call p -> brackets false p false.
Proof.
  intros [fuel proc | fuel proc payload | fuel proc value | proc | | proc].
  - apply brackets_pm_ipi_wait.
  - unfold pm_ipi_send. cbv zeta.
    eapply brackets_bind; [apply brackets_pm_ipi_wait |]. intros _.
    eapply brackets_bind; [apply brackets_write_payload |]. intros _.
    cbn [pm_write bind]. repeat constructor.
  - unfold pm_ipi_buff_read32. cbv zeta.
    eapply brackets_bind; [apply brackets_pm_ipi_wait |]. intros _.
    destruct value as [ptr |]; cbn [pm_read store_out bind]; repeat constructor.
  - unfold as_thread, pm_client_suspend, arm_gic_cpuif_deactivate, pm_read, pm_write.
    cbn [bind]. repeat constructor.
  - unfold as_thread, pm_client_abort_suspend, arm_gic_cpuif_setup, pm_read, pm_write.
    cbn [bind]. repeat constructor.
  - unfold as_thread, pm_client_wakeup. cbv zeta.
    destruct (negb (UNDEFINED_CPUID =? pm_get_cpuid (node_id proc)));
      unfold pm_read, pm_write; cbn [bind]; repeat constructor.
Qed.

End Discipline.

Lemma holds_same_lock (m m' : machine) (c : core) :
  lock m' = lock m -> holds m' c = holds m c.
Proof. intros H. unfold holds. rewrite H. reflexivity. Qed.

(** One step of one core keeps the discipline and logs one event that the
    lock allows. *)
Lemma cstep_disciplined (c : core) (s s' : system) :
  disciplined s ->
  cstep c s = Some s' ->
  disciplined s' /\
  exists ev, trace (hw s') = trace (hw s) ++ [ev] /\
             holder_after (lock (hw s)) [ev] = Some (lock (hw s')).
Proof.
  intros Hd Hstep. unfold cstep in Hstep.
  destruct (nth_error (threads s) c) as [p |] eqn:Hp; [| discriminate].
  pose proof (Hd c p Hp) as Hb.
  destruct p as [a | addr k | e k |]; try discriminate.
  - (* a read *)
    cbn [bus_read] in Hstep. injection Hstep as <-. cbn [hw threads]. split.
    + intros c' p' Hp'. cbn [hw threads] in Hp' |- *.
      rewrite (holds_same_lock (hw s)) by reflexivity.
      destruct (nth_error_set_nth_inv _ _ _ _ _ _ Hp Hp') as [[-> ->] | [Hne Hold]].
      * apply (brackets_load_inv _ _ _ _ Hb).
      * apply Hd. exact Hold.
    + eexists. split; [reflexivity |]. reflexivity.
  - destruct (enabled e (hw s)) eqn:He; [| discriminate].
    injection Hstep as <-. cbn [hw threads].
    pose proof (brackets_do_inv _ _ _ _ Hb) as Hinv.
    destruct e.
    + (* the lock is taken: it was free *)
      cbn [enabled] in He. destruct (lock (hw s)) as [c0 |] eqn:Hlock; [discriminate |].
      destruct Hinv as [_ Hk]. split.
      * intros c' p' Hp'. cbn [hw threads] in Hp' |- *.
        destruct (nth_error_set_nth_inv _ _ _ _ _ _ Hp Hp') as [[-> ->] | [Hne Hold]].
        -- unfold holds. cbn [apply_effect lock]. rewrite Nat.eqb_refl. exact Hk.
        -- pose proof (Hd c' p' Hold) as Hb'. unfold holds in *.
           rewrite Hlock in Hb'. cbn [apply_effect lock].
           destruct (Nat.eqb_spec c' c); [contradiction | exact Hb'].
      * eexists. split; [reflexivity |]. reflexivity.
    + (* the lock is released: by its holder *)
      destruct Hinv as [Hheld Hk]. unfold holds in Hheld.
      destruct (lock (hw s)) as [c0 |] eqn:Hlock; [| discriminate].
      apply Nat.eqb_eq in Hheld. subst c0. split.
      * intros c' p' Hp'. cbn [hw threads] in Hp' |- *.
        destruct (nth_error_set_nth_inv _ _ _ _ _ _ Hp Hp') as [[-> ->] | [Hne Hold]].
        -- exact Hk.
        -- pose proof (Hd c' p' Hold) as Hb'. unfold holds in *.
           rewrite Hlock in Hb'. cbn [apply_effect lock].
           destruct (Nat.eqb_spec c' c); [contradiction | exact Hb'].
      * eexists. split; [reflexivity |].
        cbn [holder_after apply_effect lock]. rewrite Nat.eqb_refl. reflexivity.
    + split.
      * intros c' p' Hp'. cbn [hw threads] in Hp' |- *. rewrite (holds_same_lock (hw s)) by reflexivity.
        destruct (nth_error_set_nth_inv _ _ _ _ _ _ Hp Hp') as [[-> ->] | [Hne Hold]];
          [exact Hinv | apply Hd; exact Hold].
      * eexists. split; [reflexivity |]. reflexivity.
    + split.
      * intros c' p' Hp'. cbn [hw threads] in Hp' |- *. rewrite (holds_same_lock (hw s)) by reflexivity.
        destruct (nth_error_set_nth_inv _ _ _ _ _ _ Hp Hp') as [[-> ->] | [Hne Hold]];
          [exact Hinv | apply Hd; exact Hold].
      * eexists. split; [reflexivity |]. reflexivity.
    + split.
      * intros c' p' Hp'. cbn [hw threads] in Hp' |- *. rewrite (holds_same_lock (hw s)) by reflexivity.
        destruct (nth_error_set_nth_inv _ _ _ _ _ _ Hp Hp') as [[-> ->] | [Hne Hold]];
          [exact Hinv | apply Hd; exact Hold].
      * eexists. split; [reflexivity |]. reflexivity.
    + split.
      * intros c' p' Hp'. cbn [hw threads] in Hp' |- *. rewrite (holds_same_lock (hw s)) by reflexivity.
        destruct (nth_error_set_nth_inv _ _ _ _ _ _ Hp Hp') as [[-> ->] | [Hne Hold]];
          [exact Hinv | apply Hd; exact Hold].
      * eexists. split; [reflexivity |]. reflexivity.
Qed.

Lemma run_schedule_disciplined (sched : list core) :
  forall s s',
    disciplined s ->
    run_schedule sched s = Some s' ->
    disciplined s' /\
    exists tr, trace (hw s') = trace (hw s) ++ tr /\
               holder_after (lock (hw s)) tr = Some (lock (hw s')).
Proof.
  induction sched as [| c rest IH]; intros s s' Hd Hrun; cbn [run_schedule] in Hrun.
  - injection Hrun as <-. split; [exact Hd |].
    exists []. rewrite app_nil_r. auto.
  - destruct (cstep c s) as [s1 |] eqn:Hstep; [| discriminate].
    destruct (cstep_disciplined c s s1 Hd Hstep) as (Hd1 & ev & Ht1 & Hh1).
    destruct (IH s1 s' Hd1 Hrun) as (Hd' & tr & Ht & Hh).
    split; [exact Hd' |].
    exists (ev :: tr). split.
    + rewrite Ht, Ht1, <- app_assoc. reflexivity.
    + change (ev :: tr) with ([ev] ++ tr). rewrite holder_after_app, Hh1. exact Hh.
Qed.

Section DisciplineOfClient.

Context {plat : Platform}.

(** X12: what the lock does serialize.  Let every core be in a call of
    [pm_client.c], none yet started, the lock free.  Under every schedule
    the lock is taken only when it is free and released only by the core
    that holds it, so the polls of two cores never overlap; and a core that
    has returned from its call does not hold the lock. *)
Theorem lock_taken_free_and_released_by_holder (s s' : system)
    (sched : list core) :
  (forall c p, nth_error (threads s) c = Some p -> client_call p) ->
  lock (hw s) = None ->
  run_schedule sched s = Some s' ->
  exists tr,
    trace (hw s') = trace (hw s) ++ tr /\
    holder_after None tr = Some (lock (hw s')) /\
    (forall c a, nth_error (threads s') c = Some (Ret a) -> lock (hw s') <> Some c).
Proof.
  intros Hcalls Hfree Hrun.
  assert (Hd : disciplined s).
  { intros c p Hp. unfold holds. rewrite Hfree.
    apply brackets_client_call. apply (Hcalls c p Hp). }
  destruct (run_schedule_disciplined sched s s' Hd Hrun) as (Hd' & tr & Ht & Hh).
  exists tr. rewrite Hfree in Hh. repeat split; auto.
  intros c a Hret Hheld.
  pose proof (brackets_ret_inv _ _ _ (Hd' c _ Hret)) as Hfalse.
  unfold holds in Hfalse. rewrite Hheld, Nat.eqb_refl in Hfalse. discriminate.
Qed.

End DisciplineOfClient.

(** ** Further concrete runs on the ZynqMP values *)

Lemma zynqmp_sentinel_past_indices : 4 <= UNDEFINED_CPUID.
Proof. vm_compute. discriminate. Defined.

Lemma pm_get_proc_of_cpuid_is_by_node_witness :
  4 <= UNDEFINED_CPUID /\
  pm_get_proc (pm_get_cpuid 4) = pm_get_proc_by_node 4 /\
  pm_get_proc (pm_get_cpuid 9) = pm_get_proc_by_node 9.
Proof.
  split; [exact zynqmp_sentinel_past_indices |]. split.
  - exact (pm_get_proc_of_cpuid_is_by_node 4 zynqmp_sentinel_past_indices).
  - exact (pm_get_proc_of_cpuid_is_by_node 9 zynqmp_sentinel_past_indices).
Defined.

Lemma lookup_results_tell_registration_witness :
  ~ (0 <= UNDEFINED_CPUID < 4) /\
  (pm_get_cpuid 9 = UNDEFINED_CPUID <-> ~ In 9 (map node_id pm_procs_all)) /\
  (pm_get_proc_by_node 9 = None <-> ~ In 9 (map node_id pm_procs_all)).
Proof.
  assert (H : ~ (0 <= UNDEFINED_CPUID < 4)).
  { intros [_ Hlt]. vm_compute in Hlt. discriminate. }
  split; [exact H |]. split.
  - exact (proj2 (proj2 (lookup_results_tell_registration 9)) H).
  - exact (proj1 (proj2 (lookup_results_tell_registration 9))).
Defined.

Lemma busy_machine_wait :
  run 0%nat (pm_ipi_wait 5 pm_apu_0_proc) (busy_machine 3)
  = Some (PM_RET_SUCCESS, after_wait 0%nat pm_apu_0_proc (busy_machine 3) 3).
Proof. reflexivity. Defined.

Lemma pm_ipi_wait_reads_until_first_clear_witness :
  run 0%nat (pm_ipi_wait 5 pm_apu_0_proc) (busy_machine 3)
  = Some (PM_RET_SUCCESS, after_wait 0%nat pm_apu_0_proc (busy_machine 3) 3) /\
  exists (k : nat) (polls : list (core * event)),
    (k < 5)%nat /\
    pending 0%nat pm_apu_0_proc (busy_machine 3) k = 0 /\
    length polls = S k /\
    clock (after_wait 0%nat pm_apu_0_proc (busy_machine 3) 3)
    = (clock (busy_machine 3) + S k)%nat.
Proof.
  split; [exact busy_machine_wait |].
  destruct (pm_ipi_wait_reads_until_first_clear _ _ _ _ _ _ busy_machine_wait)
    as (k & polls & Hk & Hclear & _ & _ & _ & Hlen & Hclock).
  exists k, polls. repeat split; assumption.
Defined.

Lemma mailbox_reads_store_to_no_register_witness :
  run 0%nat (pm_ipi_wait 5 pm_apu_0_proc) (busy_machine 3)
  = Some (PM_RET_SUCCESS, after_wait 0%nat pm_apu_0_proc (busy_machine 3) 3) /\
  writes_of (trace (after_wait 0%nat pm_apu_0_proc (busy_machine 3) 3))
  = writes_of (trace (busy_machine 3)).
Proof.
  split; [exact busy_machine_wait |].
  exact (proj1 (proj1 (mailbox_reads_store_to_no_register 0%nat 5 pm_apu_0_proc
                         (busy_machine 3)) _ _ busy_machine_wait)).
Defined.

Lemma answering_machine_later (n : nat) :
  (2 < n)%nat ->
  pmu answering_machine n (response_word pm_apu_0_proc 0) = None /\
  pmu answering_machine n (response_word pm_apu_0_proc 1) = None.
Proof.
  intros Hn. cbn [answering_machine pmu].
  destruct (Nat.eqb_spec n 2) as [E | _]; [lia |].
  cbn [andb]. destruct (Nat.eqb n 3); split; reflexivity.
Defined.

Lemma answering_machine_pending (j : nat) :
  (clock answering_machine + j <= 2)%nat ->
  pending 0%nat pm_apu_0_proc answering_machine j <> 0.
Proof.
  intros Hj. cbn [answering_machine clock] in Hj.
  destruct j as [| [| [| j]]]; [| | | lia]; vm_compute; discriminate.
Defined.

Lemma pm_ipi_buff_read32_gets_pmu_response_witness :
  (clock answering_machine <= 2)%nat /\
  pmu answering_machine 2 (response_word pm_apu_0_proc 0) = Some 0 /\
  pmu answering_machine 2 (response_word pm_apu_0_proc 1) = Some 42 /\
  exists r m',
    run 0%nat (pm_ipi_buff_read32 5 pm_apu_0_proc (Some 64)) answering_machine
    = Some (r, m') /\
    r = wrap32 0 /\ ram m' 64 = wrap32 42.
Proof.
  assert (Hclock : (clock answering_machine <= 2)%nat) by (cbn; lia).
  assert (Hs : pmu answering_machine 2 (response_word pm_apu_0_proc 0) = Some 0)
    by reflexivity.
  assert (Hv : pmu answering_machine 2 (response_word pm_apu_0_proc 1) = Some 42)
    by reflexivity.
  split; [exact Hclock |]. split; [exact Hs |]. split; [exact Hv |].
  destruct (run 0%nat (pm_ipi_buff_read32 5 pm_apu_0_proc (Some 64)) answering_machine)
    as [[r m'] |] eqn:Hrun; [| vm_compute in Hrun; discriminate].
  exists r, m'. split; [reflexivity |].
  exact (pm_ipi_buff_read32_gets_pmu_response 0%nat 5 pm_apu_0_proc 64
           answering_machine 2 0 42 r m' Hclock Hs Hv
           answering_machine_later answering_machine_pending Hrun).
Defined.

Lemma zynqmp_request_addresses_distinct :
  NoDup (map fst (request_writes pm_apu_0_proc [1; 2; 3; 4; 5])).
Proof.
  vm_compute. repeat constructor; cbn; intuition discriminate.
Defined.

Lemma pm_ipi_send_leaves_payload_in_buffer_witness :
  length [1; 2; 3; 4; 5] = PAYLOAD_ARG_CNT /\
  NoDup (map fst (request_writes pm_apu_0_proc [1; 2; 3; 4; 5])) /\
  exists r m',
    run 0%nat (pm_ipi_send 1 pm_apu_0_proc [1; 2; 3; 4; 5]) (quiet_machine (fun _ => 0))
    = Some (r, m') /\
    regs m' (request_word pm_apu_0_proc 2) = wrap32 3 /\
    regs m' (trigger_register pm_apu_0_proc) = wrap32 IPI_PMU_PM_INT_MASK.
Proof.
  assert (Hlen : length [1; 2; 3; 4; 5] = PAYLOAD_ARG_CNT) by reflexivity.
  split; [exact Hlen |]. split; [exact zynqmp_request_addresses_distinct |].
  destruct (run 0%nat (pm_ipi_send 1 pm_apu_0_proc [1; 2; 3; 4; 5])
              (quiet_machine (fun _ => 0)))
    as [[r m'] |] eqn:Hrun; [| vm_compute in Hrun; discriminate].
  exists r, m'. split; [reflexivity |].
  destruct (pm_ipi_send_leaves_payload_in_buffer 0%nat 1 pm_apu_0_proc [1; 2; 3; 4; 5]
              (quiet_machine (fun _ => 0)) r m' Hlen
              zynqmp_request_addresses_distinct
              (fun a _ => quiet_machine_leaves _ a) Hrun) as [Hwords Htrig].
  split; [| exact Htrig].
  apply (Hwords 2%nat). vm_compute. lia.
Defined.

Lemma zynqmp_core_3_found : pm_get_cpuid (node_id pm_apu_3_proc) <> UNDEFINED_CPUID.
Proof. vm_compute. discriminate. Defined.

Lemma power_requests_change_mask_bits_only_witness :
  pmu_leaves (quiet_machine (fun _ => 0x5)) APU_PWRCTL /\
  pm_get_cpuid (node_id pm_apu_3_proc) <> UNDEFINED_CPUID /\
  (exists m1,
     run 3%nat (pm_client_suspend pm_apu_3_proc) (quiet_machine (fun _ => 0x5))
     = Some (tt, m1) /\
     forall b, 0 <= b < 32 ->
       Z.testbit (reg32 m1 APU_PWRCTL) b =
       Z.testbit (reg32 (quiet_machine (fun _ => 0x5)) APU_PWRCTL) b
       || Z.testbit (pwrdn_mask pm_apu_3_proc) b) /\
  (exists m2,
     run 0%nat (pm_client_wakeup pm_apu_3_proc) (quiet_machine (fun _ => 0x5))
     = Some (tt, m2) /\
     forall b, 0 <= b < 32 ->
       Z.testbit (reg32 m2 APU_PWRCTL) b =
       Z.testbit (reg32 (quiet_machine (fun _ => 0x5)) APU_PWRCTL) b
       && negb (Z.testbit (pwrdn_mask pm_apu_3_proc) b)).
Proof.
  split; [apply quiet_machine_leaves |]. split; [exact zynqmp_core_3_found |]. split.
  - exact (proj1 (power_requests_change_mask_bits_only 3%nat pm_apu_3_proc
                    (quiet_machine (fun _ => 0x5)) (quiet_machine_leaves _ _))).
  - exact (proj2 (power_requests_change_mask_bits_only 0%nat pm_apu_3_proc
                    (quiet_machine (fun _ => 0x5)) (quiet_machine_leaves _ _))
             zynqmp_core_3_found).
Defined.

Lemma wakeup_undoes_suspend_witness :
  pmu_leaves (quiet_machine (fun _ => 0x5)) APU_PWRCTL /\
  pm_get_cpuid (node_id pm_apu_3_proc) <> UNDEFINED_CPUID /\
  exists m1 m2,
    run 3%nat (pm_client_suspend pm_apu_3_proc) (quiet_machine (fun _ => 0x5))
    = Some (tt, m1) /\
    run 0%nat (pm_client_wakeup pm_apu_3_proc) m1 = Some (tt, m2) /\
    reg32 m2 APU_PWRCTL =
      Z.land (reg32 (quiet_machine (fun _ => 0x5)) APU_PWRCTL)
             (not32 (pwrdn_mask pm_apu_3_proc)).
Proof.
  split; [apply quiet_machine_leaves |]. split; [exact zynqmp_core_3_found |].
  destruct (wakeup_undoes_suspend 0%nat 3%nat pm_apu_3_proc
              (quiet_machine (fun _ => 0x5)) (quiet_machine_leaves _ _)
              zynqmp_core_3_found)
    as (m1 & m2 & H1 & H2 & H3 & _).
  exists m1, m2. repeat split; assumption.
Defined.

Lemma abort_undoes_suspend_of_primary_witness :
  pmu_leaves (quiet_machine (fun _ => 0x4)) APU_PWRCTL /\
  exists m1 m2,
    run 0%nat (pm_client_suspend primary_proc) (quiet_machine (fun _ => 0x4))
    = Some (tt, m1) /\
    run 0%nat pm_client_abort_suspend m1 = Some (tt, m2) /\
    gic m1 0%nat = false /\
    gic m2 0%nat = true /\
    reg32 m2 APU_PWRCTL =
      Z.land (reg32 (quiet_machine (fun _ => 0x4)) APU_PWRCTL)
             (not32 (pwrdn_mask primary_proc)).
Proof.
  split; [apply quiet_machine_leaves |].
  destruct (abort_undoes_suspend_of_primary 0%nat (quiet_machine (fun _ => 0x4))
              (quiet_machine_leaves _ _))
    as (m1 & m2 & H1 & H2 & H3 & H4 & _ & H5 & _).
  exists m1, m2. repeat split; assumption.
Defined.

Lemma concurrent_suspends_lose_a_request_witness :
  exists s',
    run_schedule racing_schedule
      (two_suspenders (fun _ => 0) pm_apu_0_proc pm_apu_1_proc) = Some s' /\
    threads s' = [Ret 0; Ret 0] /\
    Z.testbit (pwrdn_mask pm_apu_0_proc) 0 = true /\
    Z.testbit (reg32 (hw s') APU_PWRCTL) 0 = false.
Proof.
  destruct (concurrent_suspends_lose_a_request (fun _ => 0) pm_apu_0_proc pm_apu_1_proc)
    as (s' & Hrun & Hthreads & _ & _ & _ & Hbits).
  exists s'. split; [exact Hrun |]. split; [exact Hthreads |].
  split; [reflexivity |].
  apply Hbits; [lia | reflexivity | reflexivity].
Defined.

Lemma stuck_senders_others (c : nat) (p : prog Z) :
  c <> 0%nat -> nth_error (threads stuck_senders) c = Some p ->
  exists k, p = Do LockGet k.
Proof.
  intros Hc Hp. destruct c as [| [| c]]; [contradiction | |].
  - injection Hp as <-. eexists. reflexivity.
  - destruct c; discriminate.
Defined.

Lemma stuck_channel_blocks_every_core_witness :
  lock (hw stuck_senders) = None /\
  pmu_leaves (hw stuck_senders) (observation_register pm_apu_0_proc) /\
  Z.land (reg32 (hw stuck_senders) (observation_register pm_apu_0_proc))
         IPI_PMU_PM_INT_MASK <> 0 /\
  exists s',
    run_schedule [0; 0; 0]%nat stuck_senders = Some s' /\
    lock (hw s') = Some 0%nat /\
    writes_of (trace (hw s')) = writes_of (trace (hw stuck_senders)) /\
    nth_error (threads s') 1 = nth_error (threads stuck_senders) 1.
Proof.
  assert (Hq : pmu_leaves (hw stuck_senders) (observation_register pm_apu_0_proc))
    by (intros n; reflexivity).
  assert (Hpend : Z.land (reg32 (hw stuck_senders) (observation_register pm_apu_0_proc))
                         IPI_PMU_PM_INT_MASK <> 0)
    by (vm_compute; discriminate).
  split; [reflexivity |]. split; [exact Hq |]. split; [exact Hpend |].
  destruct (run_schedule [0; 0; 0]%nat stuck_senders) as [s' |] eqn:Hrun;
    [| vm_compute in Hrun; discriminate].
  exists s'. split; [reflexivity |].
  destruct (stuck_channel_blocks_every_core (plat := zynqmp) 3 pm_apu_0_proc _
              stuck_senders s' [0; 0]%nat eq_refl stuck_senders_others eq_refl
              Hq Hpend Hrun)
    as (Hlock & _ & Hw & Hth).
  repeat split; auto.
Defined.

Lemma two_senders_calls (c : nat) (p : prog Z) :
  nth_error (threads two_senders) c = Some p -> client_call p.
Proof.
  intros Hp. destruct c as [| [| c]].
  - injection Hp as <-. constructor.
  - injection Hp as <-. constructor.
  - destruct c; discriminate.
Defined.

Lemma lock_taken_free_and_released_by_holder_witness :
  lock (hw two_senders) = None /\
  exists s' tr,
    run_schedule alternating_schedule two_senders = Some s' /\
    trace (hw s') = trace (hw two_senders) ++ tr /\
    holder_after None tr = Some (lock (hw s')).
Proof.
  split; [reflexivity |].
  destruct (run_schedule alternating_schedule two_senders) as [s' |] eqn:Hrun;
    [| vm_compute in Hrun; discriminate].
  destruct (lock_taken_free_and_released_by_holder two_senders s' alternating_schedule
              two_senders_calls eq_refl Hrun)
    as (tr & Ht & Hh & _).
  exists s', tr. repeat split; assumption.
Defined.
